(** * LectureLogic: session lifecycle, note formatter, audio payload

    A shallow embedding of the recording application:
    - [JS]         the primitives of the host language on ASCII texts and
                   numbers;
    - [UTF16]      its strings as sequences of code units, with the string
                   methods the formatter calls;
    - [Markdown]   [renderMarkdown] of [App.tsx];
    - [Base64]     the text encoding behind [FileReader.readAsDataURL];
    - [Gemini]     [blobToBase64] and the request built by
                   [generateNotesFromAudio];
    - [Types]      [AppState] and [NoteSession];
    - [App]        the component state, its handlers and the asynchronous
                   continuations, as an event-driven machine;
    - [Visualizer] the effect of the frequency visualizer and its cleanup;
    - [Page]       [App] together with the visualizer it mounts. *)

From Stdlib Require Import ZArith Ascii String List Lia.
From Stdlib.Strings Require Import Byte.
From Stdlib Require Import Decimal DecimalString DecimalPos DecimalN DecimalZ.
From stdpp Require Import base option list gmap strings.

Local Open Scope string_scope.
#[local] Arguments String.append !_ _ / : simpl nomatch.

(** ** Host-language primitives on ASCII texts and numbers *)

Module JS.

(** The texts the program builds itself (the data URL of a blob, the
    decimal digits of a number) hold ASCII characters only; they are
    [string]s. *)

(** [s.split(c)] for a one-character separator. *)
Fixpoint split (c : ascii) (s : string) : list string :=
  match s with
  | EmptyString => [EmptyString]
  | String a r =>
      if Ascii.eqb a c then EmptyString :: split c r
      else match split c r with
           | h :: t => String a h :: t
           | [] => [String a EmptyString]
           end
  end.

Definition is_digit (c : ascii) : bool :=
  let n := nat_of_ascii c in Nat.leb 48 n && Nat.leb n 57.

(** [Number.MAX_SAFE_INTEGER].  A number of the host language is a
    double; on the integers up to this bound its arithmetic ([/] followed
    by [Math.floor], [%], [+ 1]) is the arithmetic of [Z], and
    [toString] gives the decimal digits. *)
Definition MAX_SAFE_INTEGER : Z := (2 ^ 53 - 1)%Z.

(** [n.toString()] for an integer [n]: its decimal digits, with a minus
    sign in front when it is negative. *)
Definition toString (n : Z) : string := NilZero.string_of_int (Z.to_int n).

Fixpoint fill (k : nat) (c : ascii) (s : string) : string :=
  match k with
  | O => s
  | S k' => String c (fill k' c s)
  end.

(** [s.padStart(n, c)] with a one-character filler. *)
Definition padStart (n : nat) (c : ascii) (s : string) : string :=
  fill (n - String.length s) c s.

(** The number a text of decimal digits denotes, leading zeros
    allowed. *)
Definition decimal_value (s : string) : option Z :=
  option_map Z.of_int (NilZero.int_of_string s).

Definition all_digits (s : string) : Prop :=
  Forall (fun c => is_digit c = true) (list_ascii_of_string s).

End JS.

(** ** Host-language strings of arbitrary characters

    A string of the host language is a sequence of UTF-16 code units.
    The notes come from the service and can hold any character, so they
    are sequences of code units, each a number below [2^16]; a character
    outside the basic plane is two of them. *)

Module UTF16.
Local Open Scope list_scope.
Local Open Scope N_scope.

Definition ustring : Type := list N.

(** A literal of the source; all of them are ASCII. *)
Definition lit (s : string) : ustring := map N_of_ascii (list_ascii_of_string s).

Definition LF : N := 0x0A.
Definition SPACE : N := 0x20.
Definition STAR : N := 0x2A.
Definition DOT : N := 0x2E.

(** [s.startsWith(p)] *)
Fixpoint startsWith (p s : ustring) : bool :=
  match p, s with
  | [], _ => true
  | a :: p', b :: s' => if a =? b then startsWith p' s' else false
  | _ :: _, [] => false
  end.

(** [s.substring(n)]: the code units from index [n] on. *)
Definition substring_from (n : nat) (s : ustring) : ustring := drop n s.

(** [s.endsWith(p)] *)
Definition endsWith (p s : ustring) : bool :=
  if Nat.leb (length p) (length s)
  then bool_decide (substring_from (length s - length p)%nat s = p)
  else false.

(** [s.replace(pat, rep)] with a string pattern: only the first
    occurrence is replaced. *)
Fixpoint replace (pat rep s : ustring) : ustring :=
  if startsWith pat s then rep ++ substring_from (length pat) s
  else match s with
       | [] => []
       | c :: s' => c :: replace pat rep s'
       end.

(** [s.replace(/\*\*/g, '')]: every occurrence of two stars is removed,
    scanning from the left. *)
Fixpoint remove_double_stars (s : ustring) : ustring :=
  match s with
  | a :: r =>
      match r with
      | b :: r' =>
          if (a =? STAR) && (b =? STAR) then remove_double_stars r'
          else a :: remove_double_stars r
      | [] => [a]
      end
  | [] => []
  end.

(** [s.split(c)] for a one-character separator. *)
Fixpoint split (c : N) (s : ustring) : list ustring :=
  match s with
  | [] => [[]]
  | a :: r =>
      if a =? c then [] :: split c r
      else match split c r with
           | h :: t => (a :: h) :: t
           | [] => [[a]]
           end
  end.

(** What [trim] strips: the white space and the line terminators of the
    language.  TAB, LF, VT, FF, CR; SPACE; NBSP; OGHAM SPACE MARK; EN QUAD
    to HAIR SPACE; LINE and PARAGRAPH SEPARATOR; NARROW NBSP; MEDIUM
    MATHEMATICAL SPACE; IDEOGRAPHIC SPACE; the byte order mark. *)
Definition is_space (c : N) : bool :=
  ((0x09 <=? c) && (c <=? 0x0D))
  || (c =? 0x20) || (c =? 0xA0) || (c =? 0x1680)
  || ((0x2000 <=? c) && (c <=? 0x200A))
  || (c =? 0x2028) || (c =? 0x2029) || (c =? 0x202F) || (c =? 0x205F)
  || (c =? 0x3000) || (c =? 0xFEFF).

Fixpoint trimStart (s : ustring) : ustring :=
  match s with
  | c :: r => if is_space c then trimStart r else s
  | [] => []
  end.

(** [s.trim()] *)
Definition trim (s : ustring) : ustring :=
  rev (trimStart (rev (trimStart s))).

(** [\d] *)
Definition is_digit (c : N) : bool := (0x30 <=? c) && (c <=? 0x39).

Fixpoint skip_digits (s : ustring) : ustring :=
  match s with
  | c :: r => if is_digit c then skip_digits r else s
  | [] => []
  end.

(** The regular expression [/^\d+\. /]: one or more digits, a dot, a
    space, anchored at the start.  [Some rest] is what follows the match
    (so [s.replace(/^\d+\. /, '')] is [rest]); [None] is no match. *)
Definition match_ordinal (s : ustring) : option ustring :=
  match s with
  | c :: _ =>
      if is_digit c then
        match skip_digits s with
        | d :: sp :: rest => if (d =? DOT) && (sp =? SPACE) then Some rest else None
        | _ => None
        end
      else None
  | [] => None
  end.

(** No two stars in a row. *)
Fixpoint no_double_star (s : ustring) : bool :=
  match s with
  | a :: r =>
      match r with
      | b :: _ => if (a =? STAR) && (b =? STAR) then false else no_double_star r
      | [] => true
      end
  | [] => true
  end.

(** How often a code unit occurs. *)
Fixpoint occurrences (c : N) (s : ustring) : nat :=
  match s with
  | [] => O
  | a :: r => if a =? c then S (occurrences c r) else occurrences c r
  end.

End UTF16.

(** ** The note formatter ([renderMarkdown], App.tsx) *)

Module Markdown.
Import UTF16.
Local Open Scope list_scope.

(** The elements the formatter returns: [h1]/[h2]/[h3], [li],
    [li.list-decimal], bold [p], the spacer [div] and plain [p].  The
    React key of an element is its position in the list. *)
Inductive block : Type :=
| Heading (level : nat) (text : ustring)
| ListItem (text : ustring)
| NumberedItem (text : ustring)
| BoldParagraph (text : ustring)
| Spacer
| Paragraph (text : ustring).

(** The body of the [map] callback. *)
Definition renderLine (line : ustring) : block :=
  if startsWith (lit "### ") line then Heading 3 (replace (lit "### ") [] line)
  else if startsWith (lit "## ") line then Heading 2 (replace (lit "## ") [] line)
  else if startsWith (lit "# ") line then Heading 1 (replace (lit "# ") [] line)
  else if startsWith (lit "- ") line || startsWith (lit "* ") line
       then ListItem (substring_from 2 line)
  else match match_ordinal line with
       | Some rest => NumberedItem rest
       | None =>
           if startsWith (lit "**") line && endsWith (lit "**") line
           then BoldParagraph (remove_double_stars line)
           else if bool_decide (trim line = []) then Spacer
           else Paragraph line
       end.

(** [renderMarkdown]: [null] for the empty text, otherwise one element
    per line. *)
Definition renderMarkdown (text : ustring) : option (list block) :=
  match text with
  | [] => None
  | _ :: _ => Some (map renderLine (split LF text))
  end.

(** The notes of the worked scenario: a title line and one bullet. *)
Definition sample_notes : ustring := lit "# Topic" ++ LF :: lit "- point one".

(** The reading of a line in the words of the description: a marker and
    a space in front make a heading or a list item, a line that opens
    and closes with two stars is a bold paragraph, a line of white space
    is a spacer, anything else is a plain paragraph. *)
Definition digits (s : ustring) : Prop :=
  s <> [] /\ Forall (fun c => is_digit c = true) s.

Definition blank (s : ustring) : Prop :=
  Forall (fun c => is_space c = true) s.

Definition opens_with (p s : ustring) : Prop := exists t, s = p ++ t.
Definition closes_with (p s : ustring) : Prop := exists t, s = t ++ p.

Definition marked (line : ustring) : Prop :=
  opens_with (lit "### ") line \/ opens_with (lit "## ") line \/
  opens_with (lit "# ") line \/
  opens_with (lit "- ") line \/ opens_with (lit "* ") line \/
  exists ds, digits ds /\ opens_with (ds ++ lit ". ") line.

Inductive line_block : ustring -> block -> Prop :=
| LB_h3 t : line_block (lit "### " ++ t) (Heading 3 t)
| LB_h2 t : line_block (lit "## " ++ t) (Heading 2 t)
| LB_h1 t : line_block (lit "# " ++ t) (Heading 1 t)
| LB_dash t : line_block (lit "- " ++ t) (ListItem t)
| LB_star t : line_block (lit "* " ++ t) (ListItem t)
| LB_number ds t : digits ds -> line_block (ds ++ lit ". " ++ t) (NumberedItem t)
| LB_bold line :
    opens_with (lit "**") line -> closes_with (lit "**") line ->
    line_block line (BoldParagraph (remove_double_stars line))
| LB_blank line : blank line -> line_block line Spacer
| LB_plain line :
    ~ marked line -> ~ (opens_with (lit "**") line /\ closes_with (lit "**") line) ->
    ~ blank line -> line_block line (Paragraph line).

(** A line of white space from outside Latin-1: an ideographic space,
    an em space and a byte order mark. *)
Definition wide_blank_line : ustring := [0x3000; 0x2003; 0xFEFF]%N.

End Markdown.

(** ** Base64 (RFC 4648), as produced by [FileReader.readAsDataURL] *)

Module Base64.

Definition alphabet : string :=
  "ABCDEFGHIJKLMNOPQRSTUVWXYZabcdefghijklmnopqrstuvwxyz0123456789+/".

Definition pad : ascii := "="%char.

(** The character of a 6-bit value. *)
Definition digit (v : N) : ascii :=
  match String.get (N.to_nat v) alphabet with
  | Some c => c
  | None => pad
  end.

(** The 6-bit value of a character of the alphabet. *)
Definition value (c : ascii) : option N :=
  let n := N_of_ascii c in
  if (65 <=? n)%N && (n <=? 90)%N then Some (n - 65)%N
  else if (97 <=? n)%N && (n <=? 122)%N then Some (n - 71)%N
  else if (48 <=? n)%N && (n <=? 57)%N then Some (n + 4)%N
  else if (n =? 43)%N then Some 62%N
  else if (n =? 47)%N then Some 63%N
  else None.

(** Three bytes make four characters; one or two trailing bytes are
    padded with [=]. *)
Fixpoint encode (bs : list byte) : string :=
  match bs with
  | [] => ""
  | [a] =>
      let x := Byte.to_N a in
      String (digit (x / 4)) (String (digit (x mod 4 * 16))
        (String pad (String pad "")))
  | [a; b] =>
      let x := Byte.to_N a in
      let y := Byte.to_N b in
      String (digit (x / 4)) (String (digit (x mod 4 * 16 + y / 16))
        (String (digit (y mod 16 * 4)) (String pad "")))
  | a :: b :: c :: rest =>
      let x := Byte.to_N a in
      let y := Byte.to_N b in
      let z := Byte.to_N c in
      String (digit (x / 4)) (String (digit (x mod 4 * 16 + y / 16))
        (String (digit (y mod 16 * 4 + z / 64)) (String (digit (z mod 64))
          (encode rest))))
  end.

Definition byte1 (v1 v2 : N) : option byte := Byte.of_N (v1 * 4 + v2 / 16).
Definition byte2 (v2 v3 : N) : option byte := Byte.of_N (v2 mod 16 * 16 + v3 / 4).
Definition byte3 (v3 v4 : N) : option byte := Byte.of_N (v3 mod 4 * 64 + v4).

(** The decoder of the receiving side: groups of four characters, padding
    only in the last group. *)
Fixpoint decode (s : string) : option (list byte) :=
  match s with
  | EmptyString => Some []
  | String c1 (String c2 (String c3 (String c4 rest))) =>
      v1 ← value c1; v2 ← value c2; a ← byte1 v1 v2;
      if Ascii.eqb c3 pad then
        if Ascii.eqb c4 pad && String.eqb rest "" then Some [a] else None
      else
        v3 ← value c3; b ← byte2 v2 v3;
        if Ascii.eqb c4 pad then
          if String.eqb rest "" then Some [a; b] else None
        else
          v4 ← value c4; c ← byte3 v3 v4;
          tl ← decode rest; Some (a :: b :: c :: tl)
  | _ => None
  end.

End Base64.

(** ** The note-generation service (geminiService) *)

Module Gemini.

(** A [Blob]: its bytes and its [type], which the platform keeps only
    when it is printable ASCII. *)
Record Blob : Type := mkBlob { blob_bytes : list byte; blob_type : string }.

(** [new Blob(parts, { type })] *)
Definition newBlob (parts : list (list byte)) (type : string) : Blob :=
  mkBlob (concat parts) type.

Definition blob_size (b : Blob) : nat := List.length (blob_bytes b).

(** [FileReader.readAsDataURL]: [reader.result] once the read has ended.
    A blob without a type is reported as [application/octet-stream]. *)
Definition readAsDataURL (b : Blob) : string :=
  "data:" +:+
  (if String.eqb (blob_type b) "" then "application/octet-stream" else blob_type b)
  +:+ ";base64," +:+ Base64.encode (blob_bytes b).

(** [blobToBase64]: the value the promise resolves with,
    [result.split(',')[1]]; [None] is [undefined]. *)
Definition blobToBase64 (b : Blob) : option string :=
  JS.split ","%char (readAsDataURL b) !! 1%nat.

(** The [inlineData] part of the request. *)
Record InlineData : Type :=
  mkInlineData { mimeType : string; data : option string }.

(** The first part of [contents] in [generateNotesFromAudio]; the second
    part is the fixed prompt text. *)
Definition inlineData (audioBlob : Blob) : InlineData :=
  let base64Audio := blobToBase64 audioBlob in
  let mimeType :=
    if String.eqb (blob_type audioBlob) "" then "audio/webm"
    else blob_type audioBlob in
  mkInlineData mimeType base64Audio.

(** [response.text || "No notes could be generated."] *)
Definition notes_of_response (text : option UTF16.ustring) : UTF16.ustring :=
  match text with
  | Some t =>
      match t with
      | [] => UTF16.lit "No notes could be generated."
      | _ :: _ => t
      end
  | None => UTF16.lit "No notes could be generated."
  end.

(** A string without a comma. *)
Definition comma_free (s : string) : Prop :=
  Forall (fun c => c <> ","%char) (list_ascii_of_string s).

End Gemini.

(** ** State passing

    Handlers and effects are sequences of updates of the state they hold;
    they are written in a state monad. *)

Definition StateM (S A : Type) : Type := S -> A * S.

#[export] Instance StateM_ret {S} : MRet (StateM S) := fun A a c => (a, c).
#[export] Instance StateM_bind {S} : MBind (StateM S) :=
  fun A B k m c => let (a, c') := m c in k a c'.

Definition exec {S A} (m : StateM S A) (c : S) : S := snd (m c).

(** ** The shared types (types.ts) *)

Module Types.

Inductive AppState : Type :=
| IDLE | RECORDING | REVIEW | PROCESSING | COMPLETED | ERROR.

Definition AppState_eqb (a b : AppState) : bool :=
  match a, b with
  | IDLE, IDLE | RECORDING, RECORDING | REVIEW, REVIEW
  | PROCESSING, PROCESSING | COMPLETED, COMPLETED | ERROR, ERROR => true
  | _, _ => false
  end.

Record NoteSession : Type := mkNoteSession {
  id : string;
  timestamp : Z;
  audioBlob : option Gemini.Blob;
  audioUrl : option nat;          (* the object URL, by its handle *)
  duration : Z;                   (* in seconds *)
  notes : option UTF16.ustring;
  topic : option string
}.

End Types.

(** ** The application component (App.tsx) *)

Module App.
Import Types.
Local Open Scope list_scope.

(** *** Component state: the [useState] cells and the [useRef] cells *)

Record State : Type := mkState {
  appState : AppState;
  session : option NoteSession;
  stream : option nat;
  duration : Z;
  error : option string;
  mediaRecorderRef : option nat;
  chunksRef : list (list byte);
  timerRef : option nat
}.

(** *** The platform the component talks to *)

Inductive RecordingState : Type :=
| recording
| stopping      (* [stop()] was called, the [stop] event is still queued *)
| inactive.

(** A [MediaRecorder] with what its [onstop] closure holds: the stream it
    was built on and [duration], the constant of the render in which
    [startRecording] was called. *)
Record Recorder : Type := mkRecorder {
  rec_stream : nat;
  rec_duration : Z;
  rec_state : RecordingState
}.

(** Calls into the platform, newest first. *)
Inductive Call : Type :=
| GetUserMedia (s : nat)
| TrackStop (s : nat)
| SetInterval (t : nat)
| ClearInterval (t : nat)
| CreateObjectURL (u : nat)
| RevokeObjectURL (u : nat)       (* the release of an object URL; no handler
                                     below makes this call *)
| GenerateContent (part : Gemini.InlineData).

Record Platform : Type := mkPlatform {
  recorders : gmap nat Recorder;
  activeTimers : gset nat;        (* intervals set and not cleared *)
  liveStreams : gset nat;         (* streams whose tracks are not stopped *)
  pendingMedia : list Z;          (* [getUserMedia] promises not settled; each
                                     with [duration] as the caller saw it *)
  pendingNotes : list Gemini.Blob; (* [generateNotesFromAudio] promises not settled *)
  nextId : nat;                   (* source of fresh handles, never 0 *)
  calls : list Call
}.

Definition Config : Type := State * Platform.

Abbreviation M := (StateM Config).

Definition skip : M unit := mret tt.
Definition read {A} (f : State -> A) : M A := fun c => (f (fst c), c).
Definition modState (f : State -> State) : M unit := fun c => (tt, (f (fst c), snd c)).
Definition modPlatform (f : Platform -> Platform) : M unit :=
  fun c => (tt, (fst c, f (snd c))).

(** The setters of the state cells. *)
Definition setAppState (v : AppState) : M unit :=
  modState (fun s => mkState v (session s) (stream s) (duration s) (error s)
                       (mediaRecorderRef s) (chunksRef s) (timerRef s)).
Definition setSession (f : option NoteSession -> option NoteSession) : M unit :=
  modState (fun s => mkState (appState s) (f (session s)) (stream s) (duration s)
                       (error s) (mediaRecorderRef s) (chunksRef s) (timerRef s)).
Definition setStream (v : option nat) : M unit :=
  modState (fun s => mkState (appState s) (session s) v (duration s) (error s)
                       (mediaRecorderRef s) (chunksRef s) (timerRef s)).
Definition setDuration (f : Z -> Z) : M unit :=
  modState (fun s => mkState (appState s) (session s) (stream s) (f (duration s))
                       (error s) (mediaRecorderRef s) (chunksRef s) (timerRef s)).
Definition setError (v : option string) : M unit :=
  modState (fun s => mkState (appState s) (session s) (stream s) (duration s) v
                       (mediaRecorderRef s) (chunksRef s) (timerRef s)).
Definition set_mediaRecorderRef (v : option nat) : M unit :=
  modState (fun s => mkState (appState s) (session s) (stream s) (duration s)
                       (error s) v (chunksRef s) (timerRef s)).
Definition set_chunksRef (v : list (list byte)) : M unit :=
  modState (fun s => mkState (appState s) (session s) (stream s) (duration s)
                       (error s) (mediaRecorderRef s) v (timerRef s)).
Definition set_timerRef (v : option nat) : M unit :=
  modState (fun s => mkState (appState s) (session s) (stream s) (duration s)
                       (error s) (mediaRecorderRef s) (chunksRef s) v).

(** Platform primitives. *)
Definition log (c : Call) (p : Platform) : Platform :=
  mkPlatform (recorders p) (activeTimers p) (liveStreams p) (pendingMedia p)
             (pendingNotes p) (nextId p) (c :: calls p).

Definition fresh : M nat :=
  fun c => let p := snd c in
    (nextId p, (fst c, mkPlatform (recorders p) (activeTimers p) (liveStreams p)
                         (pendingMedia p) (pendingNotes p) (S (nextId p)) (calls p))).

Definition set_recorders (f : gmap nat Recorder -> gmap nat Recorder) : M unit :=
  modPlatform (fun p => mkPlatform (f (recorders p)) (activeTimers p) (liveStreams p)
                          (pendingMedia p) (pendingNotes p) (nextId p) (calls p)).
Definition set_activeTimers (f : gset nat -> gset nat) : M unit :=
  modPlatform (fun p => mkPlatform (recorders p) (f (activeTimers p)) (liveStreams p)
                          (pendingMedia p) (pendingNotes p) (nextId p) (calls p)).
Definition set_liveStreams (f : gset nat -> gset nat) : M unit :=
  modPlatform (fun p => mkPlatform (recorders p) (activeTimers p) (f (liveStreams p))
                          (pendingMedia p) (pendingNotes p) (nextId p) (calls p)).
Definition set_pendingMedia (f : list Z -> list Z) : M unit :=
  modPlatform (fun p => mkPlatform (recorders p) (activeTimers p) (liveStreams p)
                          (f (pendingMedia p)) (pendingNotes p) (nextId p) (calls p)).
Definition set_pendingNotes (f : list Gemini.Blob -> list Gemini.Blob) : M unit :=
  modPlatform (fun p => mkPlatform (recorders p) (activeTimers p) (liveStreams p)
                          (pendingMedia p) (f (pendingNotes p)) (nextId p) (calls p)).

(** [navigator.mediaDevices.getUserMedia] resolving with a new stream. *)
Definition getUserMedia_resolved : M nat :=
  s ← fresh;
  set_liveStreams (fun l => {[s]} ∪ l) ;;
  modPlatform (log (GetUserMedia s)) ;;
  mret s.

(** [new MediaRecorder(audioStream)] with its handlers attached, then
    [start()]. *)
Definition newMediaRecorder (audioStream : nat) (d : Z) : M nat :=
  r ← fresh;
  set_recorders (fun m => <[r := mkRecorder audioStream d inactive]> m) ;;
  mret r.

Definition recorder_start (r : nat) : M unit :=
  set_recorders (alter (fun x => mkRecorder (rec_stream x) (rec_duration x) recording) r).

(** [MediaRecorder.stop()]: a recording recorder queues its [stop]
    event; on any other recorder nothing happens. *)
Definition recorder_stop (r : nat) : M unit :=
  set_recorders (alter (fun x =>
    match rec_state x with
    | recording => mkRecorder (rec_stream x) (rec_duration x) stopping
    | _ => x
    end) r).

Definition setInterval : M nat :=
  t ← fresh;
  set_activeTimers (fun a => {[t]} ∪ a) ;;
  modPlatform (log (SetInterval t)) ;;
  mret t.

Definition clearInterval (t : nat) : M unit :=
  set_activeTimers (fun a => a ∖ {[t]}) ;;
  modPlatform (log (ClearInterval t)).

Definition createObjectURL (b : Gemini.Blob) : M nat :=
  u ← fresh;
  modPlatform (log (CreateObjectURL u)) ;;
  mret u.

(** [audioStream.getTracks().forEach(track => track.stop())] *)
Definition stopTracks (s : nat) : M unit :=
  set_liveStreams (fun l => l ∖ {[s]}) ;;
  modPlatform (log (TrackStop s)).

(** [generateNotesFromAudio(blob)] up to its [await]: the request is
    built from the blob and the promise is pending. *)
Definition generateNotesFromAudio_call (b : Gemini.Blob) : M unit :=
  modPlatform (log (GenerateContent (Gemini.inlineData b))) ;;
  set_pendingNotes (fun q => q ++ [b]).

(** *** The handlers *)

(** [startRecording] up to [await getUserMedia]. *)
Definition startRecording : M unit :=
  setError None ;;
  d ← read duration;
  set_pendingMedia (fun q => q ++ [d]).

(** [startRecording] after [getUserMedia] resolved; [d] is [duration] as
    the closure holds it. *)
Definition startRecording_resolved (d : Z) : M unit :=
  audioStream ← getUserMedia_resolved;
  setStream (Some audioStream) ;;
  r ← newMediaRecorder audioStream d;
  set_mediaRecorderRef (Some r) ;;
  set_chunksRef [] ;;
  recorder_start r ;;
  setAppState RECORDING ;;
  setDuration (fun _ => 0%Z) ;;
  t ← setInterval;
  set_timerRef (Some t).

(** The [catch] branch of [startRecording]. *)
Definition startRecording_rejected : M unit :=
  setError (Some "Microphone access denied or not available.").

(** The interval callback. *)
Definition tick : M unit := setDuration (fun prev => (prev + 1)%Z).

(** [ondataavailable] *)
Definition ondataavailable (data : list byte) : M unit :=
  if Nat.ltb 0 (List.length data) then
    chunks ← read chunksRef;
    set_chunksRef (chunks ++ [data])
  else skip.

(** [onstop], with the values its closure holds ([audioStream] and [d],
    the [duration] constant) and the two values drawn inside it. *)
Definition onstop (audioStream : nat) (d : Z) (uuid : string) (now : Z) : M unit :=
  chunks ← read chunksRef;
  let blob := Gemini.newBlob chunks "audio/webm" in
  url ← createObjectURL blob;
  setSession (fun _ => Some (mkNoteSession uuid now (Some blob) (Some url) d None None)) ;;
  stopTracks audioStream ;;
  setStream None.

Definition stopRecording : M unit :=
  ref ← read mediaRecorderRef;
  st ← read appState;
  match ref with
  | Some r =>
      if AppState_eqb st RECORDING then
        recorder_stop r ;;
        t ← read timerRef;
        match t with
        | Some (S t') => clearInterval (S t')
        | _ => skip
        end ;;
        setAppState REVIEW
      else skip
  | None => skip
  end.

(** [generateNotes] up to its [await]. *)
Definition generateNotes : M unit :=
  sess ← read session;
  match sess with
  | Some s =>
      match audioBlob s with
      | Some b =>
          setAppState PROCESSING ;;
          generateNotesFromAudio_call b
      | None => skip
      end
  | None => skip
  end.

Definition attach_notes (n : UTF16.ustring) (prev : option NoteSession) : option NoteSession :=
  match prev with
  | Some p => Some (mkNoteSession (id p) (timestamp p) (audioBlob p) (audioUrl p)
                                  (Types.duration p) (Some n) (topic p))
  | None => None
  end.

(** [generateNotes] after the promise resolved with [n]. *)
Definition generateNotes_resolved (n : UTF16.ustring) : M unit :=
  setSession (attach_notes n) ;;
  setAppState COMPLETED.

(** The [catch] branch of [generateNotes]. *)
Definition generateNotes_rejected : M unit :=
  setError (Some "Failed to generate notes. Please try again.") ;;
  setAppState REVIEW.

Definition reset : M unit :=
  setAppState IDLE ;;
  setSession (fun _ => None) ;;
  setDuration (fun _ => 0%Z) ;;
  setError None.

(** *** Events *)

Inductive Event : Type :=
| StartRecording                  (* the record button *)
| MediaGranted                    (* the oldest pending [getUserMedia] resolves *)
| MediaDenied                     (* ... or rejects *)
| Tick (t : nat)                  (* interval [t] fires *)
| StopRecording                   (* the stop button *)
| RecorderStopped (r : nat) (data : list byte) (uuid : string) (now : Z)
                                  (* recorder [r] delivers its data and its
                                     [stop] event *)
| GenerateNotes                   (* the generate button *)
| NotesResponse (text : option UTF16.ustring)
                                  (* the oldest pending request is answered *)
| NotesFailure                    (* ... or fails *)
| Reset.                          (* discard, new recording, delete *)

Definition handle (e : Event) : M unit :=
  fun c =>
  let p := snd c in
  match e with
  | StartRecording => startRecording c
  | MediaGranted =>
      match pendingMedia p with
      | d :: _ => (set_pendingMedia (fun q => tail q) ;; startRecording_resolved d) c
      | [] => skip c
      end
  | MediaDenied =>
      match pendingMedia p with
      | _ :: _ => (set_pendingMedia (fun q => tail q) ;; startRecording_rejected) c
      | [] => skip c
      end
  | Tick t =>
      if bool_decide (t ∈ activeTimers p) then tick c else skip c
  | StopRecording => stopRecording c
  | RecorderStopped r data uuid now =>
      match recorders p !! r with
      | Some (mkRecorder audioStream d stopping) =>
          (set_recorders (<[r := mkRecorder audioStream d inactive]>) ;;
           ondataavailable data ;;
           onstop audioStream d uuid now) c
      | _ => skip c
      end
  | GenerateNotes => generateNotes c
  | NotesResponse text =>
      match pendingNotes p with
      | _ :: _ => (set_pendingNotes (fun q => tail q) ;;
                   generateNotes_resolved (Gemini.notes_of_response text)) c
      | [] => skip c
      end
  | NotesFailure =>
      match pendingNotes p with
      | _ :: _ => (set_pendingNotes (fun q => tail q) ;; generateNotes_rejected) c
      | [] => skip c
      end
  | Reset => reset c
  end.

Definition step (e : Event) (c : Config) : Config := exec (handle e) c.

Definition run (es : list Event) (c : Config) : Config :=
  fold_left (fun c e => step e c) es c.

(** The component as first rendered, on an untouched platform. *)
Definition init : Config :=
  (mkState IDLE None None 0%Z None None [] None,
   mkPlatform ∅ ∅ ∅ [] [] 1 []).

(** *** The view: which control is rendered and enabled *)

Definition has_session (s : State) : bool :=
  match session s with Some _ => true | None => false end.

(** For the four user events, whether the rendered page has an enabled
    control bound to the handler; the other events come from the
    platform. *)
Definition offered (e : Event) (s : State) : bool :=
  match e with
  | StartRecording => AppState_eqb (appState s) IDLE
  | StopRecording => AppState_eqb (appState s) RECORDING
  | GenerateNotes => AppState_eqb (appState s) REVIEW && has_session s
  | Reset =>
      (AppState_eqb (appState s) REVIEW || AppState_eqb (appState s) COMPLETED)
      && has_session s
  | _ => true
  end.

(** Whether the platform can deliver a platform event: a promise to
    settle, a running interval to fire, a recorder with its [stop] event
    queued. *)
Definition ready (e : Event) (p : Platform) : bool :=
  match e with
  | MediaGranted | MediaDenied =>
      match pendingMedia p with [] => false | _ :: _ => true end
  | Tick t => bool_decide (t ∈ activeTimers p)
  | RecorderStopped r _ _ _ =>
      match recorders p !! r with
      | Some (mkRecorder _ _ stopping) => true
      | _ => false
      end
  | NotesResponse _ | NotesFailure =>
      match pendingNotes p with [] => false | _ :: _ => true end
  | _ => true
  end.

Definition enabled (e : Event) (c : Config) : bool :=
  offered e (fst c) && ready e (snd c).

(** A sequence of events the page and the platform can really produce,
    one after the other. *)
Fixpoint feasible (es : list Event) (c : Config) : bool :=
  match es with
  | [] => true
  | e :: es' => enabled e c && feasible es' (step e c)
  end.

(** *** Observations on the call trace *)

Definition is_create (c : Call) : bool :=
  match c with CreateObjectURL _ => true | _ => false end.
Definition is_revoke (c : Call) : bool :=
  match c with RevokeObjectURL _ => true | _ => false end.

Definition created_handles (c : Config) : nat :=
  List.length (List.filter is_create (calls (snd c))).
Definition released_handles (c : Config) : nat :=
  List.length (List.filter is_revoke (calls (snd c))).

(** Every audio artifact a session holds is an [audio/webm] blob. *)
Definition webm_session (c : Config) : Prop :=
  forall sess blob,
    session (fst c) = Some sess -> audioBlob sess = Some blob ->
    Gemini.blob_type blob = "audio/webm".

(** *** A worked scenario: one capture, stopped, waiting in review *)

Definition stopping_config : Config :=
  run [StartRecording; MediaGranted; StopRecording] init.

Definition review_config : Config :=
  run [StartRecording; MediaGranted; StopRecording;
       RecorderStopped 2 ["001"%byte] "id" 0%Z] init.

Definition review_blob : Gemini.Blob := Gemini.mkBlob ["001"%byte] "audio/webm".

Definition review_session : NoteSession :=
  mkNoteSession "id" 0%Z (Some review_blob) (Some 4) 0%Z None None.

(** The record button pressed twice before the microphone is granted,
    the second grant arriving after the first capture was stopped. *)
Definition double_start_events : list Event :=
  [StartRecording; StartRecording; MediaGranted; StopRecording; MediaGranted].

(** The scenario with note generation started. *)
Definition processing_config : Config :=
  run [StartRecording; MediaGranted; StopRecording;
       RecorderStopped 2 ["001"%byte] "id" 0%Z; GenerateNotes] init.

Definition noted_session : NoteSession :=
  mkNoteSession "id" 0%Z (Some review_blob) (Some 4) 0%Z (Some (UTF16.lit "n")) None.

(** The scenario carried to completed notes. *)
Definition completed_config : Config :=
  run [GenerateNotes; NotesResponse (Some (UTF16.lit "notes"))] review_config.

(** A request in flight outside [PROCESSING].  The record button is
    pressed twice before the microphone is granted; the first capture is
    stopped and its notes are requested; then the second grant arrives,
    during [PROCESSING], and starts a second capture, which is stopped
    too: the page is in [REVIEW] again, with the first session and its
    request still pending. *)
Definition in_flight_events : list Event :=
  [StartRecording; StartRecording; MediaGranted; StopRecording;
   RecorderStopped 2 ["001"%byte] "id" 0%Z; GenerateNotes;
   MediaGranted; StopRecording].

Definition review_in_flight : Config := run in_flight_events init.

(** ... the session discarded there, with the Discard button ... *)
Definition discard_in_flight_events : list Event := in_flight_events ++ [Reset].

Definition discarded_in_flight : Config := run discard_in_flight_events init.

(** ... and the second recorder delivering its [stop] event after that,
    before the answer arrives. *)
Definition recapture_in_flight_events : list Event :=
  discard_in_flight_events ++ [RecorderStopped 6 ["002"%byte] "id2" 1%Z].

Definition recaptured_in_flight : Config := run recapture_in_flight_events init.

Definition late_notes : UTF16.ustring := UTF16.lit "late".

(** *** [formatTime]: seconds as [MM:SS]

    [seconds] is an integer; the definition is the code on the safe
    integers (up to [JS.MAX_SAFE_INTEGER] in size), where [/] followed by
    [Math.floor] is the division of [Z], [%] its remainder with the sign
    of the dividend, and [toString] the decimal digits.  The counter and
    the stored duration, which are what the page passes, start at 0 and
    grow by one a second. *)

Definition formatTime (seconds : Z) : string :=
  let mins := (seconds / 60)%Z in
  let secs := Z.rem seconds 60 in
  JS.padStart 2 "0" (JS.toString mins) +:+ ":" +:+ JS.padStart 2 "0" (JS.toString secs).

(** *** Invariants of the machine *)

(** No count of seconds is negative: the counter, the value a pending
    start or a recorder's [onstop] holds, the duration of a session. *)
Definition durations_nonneg (c : Config) : Prop :=
  (0 <= duration (fst c))%Z /\
  (forall sess, session (fst c) = Some sess -> (0 <= Types.duration sess)%Z) /\
  Forall (fun d => (0 <= d)%Z) (pendingMedia (snd c)) /\
  map_Forall (fun _ x => (0 <= rec_duration x)%Z) (recorders (snd c)).

(** A session is complete: it has its audio, as [audio/webm], and an
    object URL that [createObjectURL] returned; it has no topic. *)
Definition session_complete (c : Config) : Prop :=
  forall sess, session (fst c) = Some sess ->
    (exists blob, audioBlob sess = Some blob /\
                  Gemini.blob_type blob = "audio/webm") /\
    (exists u, audioUrl sess = Some u /\ In (CreateObjectURL u) (calls (snd c))) /\
    topic sess = None.

(** While recording, the recorder in [mediaRecorderRef] is recording and
    the interval in [timerRef] is running. *)
Definition recording_armed (c : Config) : Prop :=
  appState (fst c) = RECORDING ->
  exists r s d t,
    mediaRecorderRef (fst c) = Some r /\
    recorders (snd c) !! r = Some (mkRecorder s d recording) /\
    timerRef (fst c) = Some (S t) /\
    S t ∈ activeTimers (snd c).

(** While processing, a request is in flight. *)
Definition processing_pending (c : Config) : Prop :=
  appState (fst c) = PROCESSING -> pendingNotes (snd c) <> [].

(** The two messages the component can show. *)
Definition microphone_message : string :=
  "Microphone access denied or not available.".
Definition notes_message : string :=
  "Failed to generate notes. Please try again.".

End App.

(** ** The frequency visualizer (components/Visualizer.tsx) *)

Module Visualizer.
Local Open Scope list_scope.

(** The [useRef] cells of one mounted component. *)
Record Refs : Type := mkRefs {
  canvasRef : bool;               (* the canvas element is attached *)
  animationRef : option nat;
  analyserRef : option nat;
  audioContextRef : option nat;
  sourceRef : option nat
}.

Inductive ContextState : Type := suspended | running | closed.

Inductive Node : Type :=
| AnalyserNode (ctx : nat) (fftSize : nat)
| MediaStreamSource (ctx : nat) (stream : nat).

(** The audio side of the platform. *)
Record Audio : Type := mkAudio {
  contexts : gmap nat ContextState;
  nodes : gmap nat Node;
  connections : gset (nat * nat);   (* output of the first feeds the second *)
  frames : gset nat;                (* animation frames requested, not yet run *)
  canvas2d : bool;                  (* [getContext('2d')] yields a context *)
  next : nat                        (* source of fresh handles, never 0 *)
}.

Abbreviation V := (StateM (Refs * Audio)).

Definition getRef {A} (f : Refs -> A) : V A := fun c => (f (fst c), c).
Definition getAudio {A} (f : Audio -> A) : V A := fun c => (f (snd c), c).
Definition modRefs (f : Refs -> Refs) : V unit := fun c => (tt, (f (fst c), snd c)).
Definition modAudio (f : Audio -> Audio) : V unit := fun c => (tt, (fst c, f (snd c))).

Definition set_animationRef (v : option nat) : V unit :=
  modRefs (fun r => mkRefs (canvasRef r) v (analyserRef r) (audioContextRef r) (sourceRef r)).
Definition set_analyserRef (v : option nat) : V unit :=
  modRefs (fun r => mkRefs (canvasRef r) (animationRef r) v (audioContextRef r) (sourceRef r)).
Definition set_audioContextRef (v : option nat) : V unit :=
  modRefs (fun r => mkRefs (canvasRef r) (animationRef r) (analyserRef r) v (sourceRef r)).
Definition set_sourceRef (v : option nat) : V unit :=
  modRefs (fun r => mkRefs (canvasRef r) (animationRef r) (analyserRef r) (audioContextRef r) v).

Definition freshA : V nat :=
  fun c => let a := snd c in
    (next a, (fst c, mkAudio (contexts a) (nodes a) (connections a) (frames a)
                             (canvas2d a) (S (next a)))).

Definition set_contexts (f : gmap nat ContextState -> gmap nat ContextState) : V unit :=
  modAudio (fun a => mkAudio (f (contexts a)) (nodes a) (connections a) (frames a)
                             (canvas2d a) (next a)).
Definition set_nodes (f : gmap nat Node -> gmap nat Node) : V unit :=
  modAudio (fun a => mkAudio (contexts a) (f (nodes a)) (connections a) (frames a)
                             (canvas2d a) (next a)).
Definition set_connections (f : gset (nat * nat) -> gset (nat * nat)) : V unit :=
  modAudio (fun a => mkAudio (contexts a) (nodes a) (f (connections a)) (frames a)
                             (canvas2d a) (next a)).
Definition set_frames (f : gset nat -> gset nat) : V unit :=
  modAudio (fun a => mkAudio (contexts a) (nodes a) (connections a) (f (frames a))
                             (canvas2d a) (next a)).

(** [new AudioContext()]: a context starts out suspended. *)
Definition newAudioContext : V nat :=
  c ← freshA;
  set_contexts (<[c := suspended]>);;
  mret c.

(** [audioCtx.resume()] *)
Definition resume (c : nat) : V unit :=
  set_contexts (alter (fun st => match st with suspended => running | _ => st end) c).

Definition createAnalyser (c : nat) : V nat :=
  n ← freshA;
  set_nodes (<[n := AnalyserNode c 2048]>);;
  mret n.

Definition set_fftSize (n : nat) (size : nat) : V unit :=
  set_nodes (alter (fun x => match x with
                             | AnalyserNode c _ => AnalyserNode c size
                             | _ => x
                             end) n).

Definition createMediaStreamSource (c : nat) (stream : nat) : V nat :=
  n ← freshA;
  set_nodes (<[n := MediaStreamSource c stream]>);;
  mret n.

(** [a.connect(b)] *)
Definition connect (a b : nat) : V unit :=
  set_connections (fun e => {[ (a, b) ]} ∪ e).

(** [a.disconnect()]: every outgoing connection of [a] goes. *)
Definition disconnect (a : nat) : V unit :=
  set_connections (filter (fun e => fst e ≠ a)).

Definition requestAnimationFrame : V nat :=
  f ← freshA;
  set_frames (fun s => {[f]} ∪ s);;
  mret f.

Definition cancelAnimationFrame (f : nat) : V unit :=
  set_frames (fun s => s ∖ {[f]}).

(** A requested frame is run: it is no longer pending. *)
Definition frame_taken (f : nat) : V unit :=
  set_frames (fun s => s ∖ {[f]}).

(** [draw], as the effect defines it ([isRecording] is the prop of that
    render); what it paints on the canvas is not part of the model. *)
Definition draw (isRecording : bool) : V unit :=
  if negb isRecording then mret tt
  else
    f ← requestAnimationFrame;
    set_animationRef (Some f).

(** The effect.  The result tells whether a cleanup was returned. *)
Definition effect (stream : option nat) (isRecording : bool) : V bool :=
  canvas ← getRef canvasRef;
  match stream with
  | Some stream =>
      if negb isRecording || negb canvas then mret false
      else
        ref ← getRef audioContextRef;
        audioCtx ← match ref with
                   | Some c => mret c
                   | None => c ← newAudioContext; set_audioContextRef (Some c);; mret c
                   end;
        st ← getAudio (fun a => contexts a !! audioCtx);
        match st with
        | Some suspended => resume audioCtx
        | _ => mret tt
        end;;
        an ← createAnalyser audioCtx;
        set_analyserRef (Some an);;
        set_fftSize an 256;;
        src ← createMediaStreamSource audioCtx stream;
        set_sourceRef (Some src);;
        connect src an;;
        has2d ← getAudio canvas2d;
        if negb has2d then mret false
        else
          draw isRecording;;
          mret true
  | None => mret false
  end.

(** The cleanup the effect returns. *)
Definition cleanup : V unit :=
  anim ← getRef animationRef;
  match anim with
  | Some (S f) => cancelAnimationFrame (S f)
  | _ => mret tt
  end;;
  src ← getRef sourceRef;
  match src with
  | Some s => disconnect s
  | None => mret tt
  end.

(** A component as mounted: no ref is set but the canvas. *)
Definition mounted_refs : Refs := mkRefs true None None None None.

End Visualizer.

(** ** The page: the application and the visualizer it renders *)

Module Page.
Import Types.
Local Open Scope list_scope.

(** A mounted visualizer: its refs, the dependencies of its last effect
    run ([stream], [isRecording]) and whether that run returned a
    cleanup. *)
Record Mounted : Type := mkMounted {
  refs : Visualizer.Refs;
  deps : option nat * bool;
  has_cleanup : bool
}.

Record Config : Type := mkConfig {
  app : App.Config;
  visualizer : option Mounted;
  audio : Visualizer.Audio
}.

Definition run_cleanup (m : Mounted) (a : Visualizer.Audio)
  : Visualizer.Refs * Visualizer.Audio :=
  if has_cleanup m then exec Visualizer.cleanup (refs m, a) else (refs m, a).

Definition run_effect (props : option nat * bool)
  (ra : Visualizer.Refs * Visualizer.Audio) : option Mounted * Visualizer.Audio :=
  let '(b, (r, a)) := Visualizer.effect (fst props) (snd props) ra in
  (Some (mkMounted r props b), a).

(** What follows a render: [App] renders
    [<Visualizer stream={stream} isRecording={true} />] exactly while
    [appState] is [RECORDING].  A visualizer that appears is mounted with
    fresh refs and its effect runs; one that stays re-runs its effect
    (cleanup first) when a dependency changed; one that disappears runs
    its cleanup and is dropped with its refs. *)
Definition commit (s : App.State) (v : option Mounted) (a : Visualizer.Audio)
  : option Mounted * Visualizer.Audio :=
  let props := (App.stream s, true) in
  if AppState_eqb (App.appState s) RECORDING then
    match v with
    | None => run_effect props (Visualizer.mounted_refs, a)
    | Some m =>
        if bool_decide (deps m = props) then (Some m, a)
        else run_effect props (run_cleanup m a)
    end
  else
    match v with
    | None => (None, a)
    | Some m => (None, snd (run_cleanup m a))
    end.

Inductive Event : Type :=
| AppEvent (e : App.Event)
| AnimationFrame (f : nat).       (* the requested frame [f] is run *)

Definition step (e : Event) (c : Config) : Config :=
  match e with
  | AppEvent e =>
      let app' := App.step e (app c) in
      let (v, a) := commit (fst app') (visualizer c) (audio c) in
      mkConfig app' v a
  | AnimationFrame f =>
      match visualizer c with
      | Some m =>
          if bool_decide (f ∈ Visualizer.frames (audio c)) then
            let '(r, a) :=
              exec (Visualizer.frame_taken f;; Visualizer.draw (snd (deps m)))
                   (refs m, audio c) in
            mkConfig (app c) (Some (mkMounted r (deps m) (has_cleanup m))) a
          else c
      | None => c
      end
  end.

Definition run (es : list Event) (c : Config) : Config :=
  fold_left (fun c e => step e c) es c.

Definition init : Config :=
  mkConfig App.init None (Visualizer.mkAudio ∅ ∅ ∅ ∅ true 1).

Definition contexts_created (c : Config) : nat :=
  size (Visualizer.contexts (audio c)).

(** Analysis is running: a visualizer is mounted and its effect went
    through. *)
Definition analysing (c : Config) : bool :=
  match visualizer c with
  | Some m => has_cleanup m
  | None => false
  end.

(** No context is closed. *)
Definition none_closed (a : Visualizer.Audio) : Prop :=
  forall c, Visualizer.contexts a !! c <> Some Visualizer.closed.

(** What is connected while a visualizer is on the page, and while none
    is: one connection, out of the source node the visualizer refers to,
    if its effect went through; none otherwise. *)
Definition graph_inv (c : Config) : Prop :=
  Visualizer.canvas2d (audio c) = true /\
  match visualizer c with
  | Some m =>
      Visualizer.canvasRef (refs m) = true /\
      if has_cleanup m then
        exists src an, Visualizer.sourceRef (refs m) = Some src /\
                       Visualizer.connections (audio c) = {[ (src, an) ]}
      else Visualizer.connections (audio c) = ∅
  | None => Visualizer.connections (audio c) = ∅
  end.

(** Two captures in a row: the first one running, the first one stopped
    and discarded, the second one running. *)
(** A visualizer is on the page exactly while the application is
    recording; the dependencies of its last effect run are the current
    props, and that run returned a cleanup exactly if there was a
    stream. *)
Definition mount_inv (c : Config) : Prop :=
  match visualizer c with
  | Some m =>
      App.appState (fst (app c)) = RECORDING /\
      deps m = (App.stream (fst (app c)), true) /\
      (has_cleanup m = true <-> App.stream (fst (app c)) <> None)
  | None => App.appState (fst (app c)) <> RECORDING
  end.

(** The animation frames that are requested and not yet run: the one in
    [animationRef] while analysis runs, none otherwise. *)
Definition frames_inv (c : Config) : Prop :=
  (1 <= Visualizer.next (audio c))%nat /\
  match visualizer c with
  | Some m =>
      if has_cleanup m then
        exists f, Visualizer.animationRef (refs m) = Some (S f) /\
                  Visualizer.frames (audio c) = {[ S f ]}
      else Visualizer.frames (audio c) = ∅
  | None => Visualizer.frames (audio c) = ∅
  end.

(** The handles of the contexts were all drawn already. *)
Definition contexts_drawn (a : Visualizer.Audio) : Prop :=
  forall k st, Visualizer.contexts a !! k = Some st -> (k < Visualizer.next a)%nat.

Definition capture_events : list App.Event :=
  [App.StartRecording; App.MediaGranted].

Definition discard_events : list App.Event :=
  [App.StopRecording; App.RecorderStopped 2 ["001"%byte] "id" 0%Z; App.Reset].

Definition first_capture : Config :=
  run (map AppEvent capture_events) init.

Definition between_captures : Config :=
  run (map AppEvent discard_events) first_capture.

Definition second_capture : Config :=
  run (map AppEvent capture_events) between_captures.

(** The first capture, discarded, and the record button pressed again. *)
Definition second_start_events : list Event :=
  map AppEvent (capture_events ++ discard_events ++ [App.StartRecording]).

End Page.


(** * Properties *)

(** ** Strings *)

Section StringFacts.
Import JS.

Lemma append_assoc (a b c : string) : (a +:+ b) +:+ c = a +:+ (b +:+ c).
Proof. induction a as [|x a IH]; simpl; [reflexivity | now rewrite IH]. Qed.

Lemma length_append (a b : string) :
  String.length (a +:+ b) = (String.length a + String.length b)%nat.
Proof. induction a as [|x a IH]; simpl; [reflexivity | now rewrite IH]. Qed.

(** *** Decimal texts *)

Lemma string_of_uint_digits (d : Decimal.uint) :
  all_digits (NilEmpty.string_of_uint d).
Proof. unfold all_digits. induction d; cbn; constructor; auto. Qed.

Lemma Pos_of_uint_fill (k : nat) (d : Decimal.uint) :
  NilEmpty.uint_of_string (fill k "0" (NilEmpty.string_of_uint d)) =
  Some (Nat.iter k Decimal.D0 d).
Proof.
  induction k as [|k IH]; cbn [fill Nat.iter].
  - apply NilEmpty.usu.
  - cbn [NilEmpty.uint_of_string]. now rewrite IH.
Qed.

Lemma Z_of_uint_iter_D0 (k : nat) (d : Decimal.uint) :
  Z.of_uint (Nat.iter k Decimal.D0 d) = Z.of_uint d.
Proof. induction k as [|k IH]; [reflexivity |]. cbn [Nat.iter]. exact IH. Qed.

(** The decimal text of a number that is not negative: digits only, at
    least one, and they denote the number, also behind filler zeros. *)
Lemma toString_nonneg (n : Z) :
  (0 <= n)%Z ->
  toString n <> "" /\ all_digits (toString n) /\
  forall k, decimal_value (fill k "0" (toString n)) = Some n.
Proof.
  intros Hn.
  assert (E : exists d, d <> Decimal.Nil /\ Z.to_int n = Decimal.Pos d).
  { destruct n as [|p|p]; [| | lia].
    - exists (Decimal.D0 Decimal.Nil). split; [discriminate | reflexivity].
    - exists (Pos.to_uint p). split; [apply DecimalPos.Unsigned.to_uint_nonnil | reflexivity]. }
  destruct E as (d & Hd & E).
  assert (S : toString n = NilEmpty.string_of_uint d).
  { unfold toString. rewrite E. cbn. now destruct d. }
  assert (V : Z.of_uint d = n).
  { pose proof (DecimalZ.of_to n) as R. rewrite E in R. exact R. }
  rewrite S. split; [now destruct d |]. split; [apply string_of_uint_digits |].
  intros k. unfold decimal_value, NilZero.int_of_string.
  pose proof (Pos_of_uint_fill k d) as F.
  destruct (fill k "0" (NilEmpty.string_of_uint d)) as [|a u] eqn:Q.
  - destruct k; [| discriminate Q]. cbn in Q. now destruct d.
  - assert (A : Ascii.eqb a "-" = false).
    { destruct k; cbn in Q.
      - pose proof (string_of_uint_digits d) as D. rewrite Q in D.
        inversion D as [|? ? Ha _]; subst.
        destruct a as [[] [] [] [] [] [] [] []]; try discriminate Ha; reflexivity.
      - injection Q as <- _. reflexivity. }
    rewrite A. unfold NilZero.uint_of_string. rewrite F. cbn.
    now rewrite Z_of_uint_iter_D0, V.
Qed.

Lemma fill_length (k : nat) (c : ascii) (s : string) :
  String.length (fill k c s) = (k + String.length s)%nat.
Proof. induction k; cbn; auto. Qed.

Lemma fill_digits (k : nat) (s : string) :
  all_digits s -> all_digits (fill k "0" s).
Proof. unfold all_digits. induction k; cbn; auto. Qed.

(** Below a hundred the decimal text has at most two characters. *)
Lemma toString_two_digits (n : Z) :
  (0 <= n < 100)%Z -> (String.length (toString n) <= 2)%nat.
Proof.
  intros H.
  assert (E : exists k, n = Z.of_nat k /\ (k < 100)%nat).
  { exists (Z.to_nat n). split; lia. }
  destruct E as (k & -> & Hk). clear H.
  do 100 (destruct k as [|k]; [vm_compute; lia |]).
  lia.
Qed.

(** A text of digits, a colon, a text: the two parts are determined. *)
Lemma colon_split_unique (a b a' b' : string) :
  all_digits a -> all_digits a' ->
  a +:+ ":" +:+ b = a' +:+ ":" +:+ b' -> a = a' /\ b = b'.
Proof.
  unfold all_digits. revert a'.
  induction a as [|c a IH]; intros [|c' a'] Ha Ha'; cbn; intros E.
  - injection E as <-. auto.
  - injection E as <- _. inversion Ha'; subst. discriminate.
  - injection E as -> _. inversion Ha; subst. discriminate.
  - injection E as <- E. inversion Ha; inversion Ha'; subst.
    destruct (IH a') as [-> ->]; auto.
Qed.

End StringFacts.


(** ** Strings of code units *)

Section TextFacts.
Import UTF16.
Local Open Scope list_scope.

Lemma startsWith_append (p t : ustring) : startsWith p (p ++ t) = true.
Proof.
  induction p as [|c p IH]; simpl; [reflexivity |].
  now rewrite N.eqb_refl.
Qed.

Lemma substring_from_append (p t : ustring) :
  substring_from (length p) (p ++ t) = t.
Proof. unfold substring_from. apply drop_app_length. Qed.

Lemma startsWith_split (p s : ustring) :
  startsWith p s = true -> s = p ++ substring_from (length p) s.
Proof.
  unfold substring_from.
  revert s; induction p as [|c p IH]; intros s H; simpl.
  - reflexivity.
  - destruct s as [|d s]; simpl in H; [discriminate |].
    destruct (N.eqb_spec c d) as [->|]; [| discriminate].
    simpl. f_equal. now apply IH.
Qed.

Lemma startsWith_iff (p s : ustring) :
  startsWith p s = true <-> exists t, s = p ++ t.
Proof.
  split.
  - intros H. eexists. now apply startsWith_split.
  - intros [t ->]. apply startsWith_append.
Qed.

(** A text whose first code unit is not the pattern's does not start
    with the pattern. *)
Lemma startsWith_head (p : ustring) (a c : N) (s : ustring) :
  head p = Some a -> a <> c -> startsWith p (c :: s) = false.
Proof.
  destruct p as [|b p]; [discriminate |]. intros [= ->] H. simpl.
  destruct (N.eqb_spec a c); congruence.
Qed.

(** Replacing a prefix by nothing drops it. *)
Lemma replace_prefix (p t : ustring) : replace p [] (p ++ t) = t.
Proof.
  assert (E : forall s, startsWith p s = true ->
                        replace p [] s = substring_from (length p) s).
  { intros s H. destruct s; simpl; now rewrite H. }
  rewrite E by apply startsWith_append. apply substring_from_append.
Qed.

Lemma endsWith_iff (p s : ustring) :
  endsWith p s = true <-> exists t, s = t ++ p.
Proof.
  unfold endsWith, substring_from. split.
  - destruct (Nat.leb_spec (length p) (length s)) as [L|L]; [| discriminate].
    intros H. apply bool_decide_eq_true in H.
    exists (take (length s - length p) s).
    rewrite <- H at 2. symmetry. apply take_drop.
  - intros [t ->]. rewrite length_app.
    destruct (Nat.leb_spec (length p) (length t + length p)) as [L|L]; [| lia].
    apply bool_decide_eq_true.
    replace (length t + length p - length p)%nat with (length t) by lia.
    apply drop_app_length.
Qed.

Lemma split_nonempty (c : N) (s : ustring) : split c s <> [].
Proof.
  induction s as [|a s IH]; simpl; [discriminate |].
  destruct (a =? c)%N; [discriminate |].
  destruct (split c s); [contradiction | discriminate].
Qed.

Lemma trimStart_empty (s : ustring) :
  trimStart s = [] <-> Forall (fun c => is_space c = true) s.
Proof.
  induction s as [|c s IH]; simpl.
  - split; [constructor | reflexivity].
  - destruct (is_space c) eqn:E.
    + rewrite IH. split; [now constructor | now inversion 1].
    + split; [discriminate |]. inversion 1; congruence.
Qed.

(** A line trims to nothing exactly when it is white space only. *)
Lemma trim_empty (s : ustring) :
  trim s = [] <-> Forall (fun c => is_space c = true) s.
Proof.
  unfold trim. split.
  - intros H.
    assert (H1 : trimStart (rev (trimStart s)) = []).
    { destruct (trimStart (rev (trimStart s))) as [|x l]; [reflexivity |].
      simpl in H. apply app_eq_nil in H as [_ H]. discriminate H. }
    apply trimStart_empty in H1.
    apply List.Forall_rev in H1. rewrite rev_involutive in H1. clear H.
    induction s as [|d u IHu]; [constructor |].
    simpl in H1. destruct (is_space d) eqn:E.
    + constructor; [exact E | now apply IHu].
    + inversion H1; congruence.
  - intros H. apply trimStart_empty in H. now rewrite H.
Qed.

Lemma skip_digits_append (ds t : ustring) :
  Forall (fun c => is_digit c = true) ds ->
  skip_digits (ds ++ lit ". " ++ t) = lit ". " ++ t.
Proof.
  induction ds as [|c ds IH]; simpl; intros H; [reflexivity |].
  inversion H as [|? ? Hc Hds]; subst. rewrite Hc. now apply IH.
Qed.

Lemma skip_digits_split (s : ustring) :
  exists ds, Forall (fun c => is_digit c = true) ds /\ s = ds ++ skip_digits s.
Proof.
  induction s as [|c s (ds & F & E)].
  - exists []. split; [constructor | reflexivity].
  - simpl. destruct (is_digit c) eqn:D.
    + exists (c :: ds). split; [now constructor | simpl; now rewrite <- E].
    + exists []. split; [constructor | reflexivity].
Qed.

Lemma match_ordinal_append (ds t : ustring) :
  ds <> [] -> Forall (fun c => is_digit c = true) ds ->
  match_ordinal (ds ++ lit ". " ++ t) = Some t.
Proof.
  intros N F. unfold match_ordinal.
  rewrite (skip_digits_append ds t F).
  destruct ds as [|c ds]; [contradiction |]. simpl.
  inversion F as [|? ? Hc _]; subst. now rewrite Hc.
Qed.

Lemma match_ordinal_split (s rest : ustring) :
  match_ordinal s = Some rest ->
  exists ds, ds <> [] /\ Forall (fun c => is_digit c = true) ds /\
             s = ds ++ lit ". " ++ rest.
Proof.
  unfold match_ordinal. destruct s as [|c s]; [discriminate |].
  destruct (is_digit c) eqn:D; [| discriminate].
  destruct (skip_digits_split (c :: s)) as (ds & F & E).
  destruct (skip_digits (c :: s)) as [|a [|b r]] eqn:K; try discriminate.
  destruct ((a =? DOT)%N && (b =? SPACE)%N) eqn:Q; [| discriminate].
  intros [= <-]. apply andb_prop in Q as [Qa Qb].
  apply N.eqb_eq in Qa, Qb. subst a b.
  exists ds. split; [| split; [exact F | exact E]].
  intros ->. simpl in E. injection E as -> _. discriminate D.
Qed.

End TextFacts.


(** ** The note formatter *)

Section MarkdownFacts.
Import UTF16 Markdown.
Local Open Scope list_scope.

Lemma not_opens_with (p s : ustring) : startsWith p s = false -> ~ opens_with p s.
Proof.
  intros H [t E]. rewrite (proj2 (startsWith_iff p s)) in H; [discriminate |].
  now exists t.
Qed.

(** Every line is read as the description says. *)
Lemma renderLine_classified (line : ustring) : line_block line (renderLine line).
Proof.
  unfold renderLine.
  destruct (startsWith (lit "### ") line) eqn:H3.
  { apply startsWith_iff in H3 as [t ->]. rewrite replace_prefix. constructor. }
  destruct (startsWith (lit "## ") line) eqn:H2.
  { apply startsWith_iff in H2 as [t ->]. rewrite replace_prefix. constructor. }
  destruct (startsWith (lit "# ") line) eqn:H1.
  { apply startsWith_iff in H1 as [t ->]. rewrite replace_prefix. constructor. }
  destruct (startsWith (lit "- ") line) eqn:Hd.
  { apply startsWith_iff in Hd as [t ->]. cbn [orb].
    change (substring_from 2 (lit "- " ++ t)) with t. constructor. }
  destruct (startsWith (lit "* ") line) eqn:Hs.
  { apply startsWith_iff in Hs as [t ->]. cbn [orb].
    change (substring_from 2 (lit "* " ++ t)) with t. constructor. }
  cbn [orb].
  destruct (match_ordinal line) as [rest|] eqn:Hn.
  { apply match_ordinal_split in Hn as (ds & N & F & ->).
    constructor. now split. }
  destruct (startsWith (lit "**") line && endsWith (lit "**") line) eqn:Hb.
  { apply andb_prop in Hb as [Ho Hc].
    apply LB_bold; [now apply startsWith_iff | now apply endsWith_iff]. }
  case_bool_decide as Ht.
  { apply LB_blank. now apply trim_empty. }
  apply LB_plain.
  - intros [M|[M|[M|[M|[M|(ds & [N F] & t & E)]]]]];
      try (revert M; now apply not_opens_with).
    rewrite <- app_assoc in E. subst line.
    rewrite match_ordinal_append in Hn by assumption. discriminate.
  - intros [Ho Hc]. apply startsWith_iff in Ho. apply endsWith_iff in Hc.
    rewrite Ho, Hc in Hb. discriminate.
  - intros B. apply trim_empty in B. contradiction.
Qed.

Lemma digit_no_marker (c : N) :
  is_digit c = true -> (0x23 <> c /\ 0x2D <> c /\ 0x2A <> c)%N.
Proof.
  unfold is_digit. rewrite andb_true_iff, !N.leb_le. lia.
Qed.

Lemma space_no_marker (c : N) :
  is_space c = true ->
  (0x23 <> c /\ 0x2D <> c /\ 0x2A <> c)%N /\ is_digit c = false.
Proof.
  unfold is_space, is_digit.
  rewrite !orb_true_iff, !andb_true_iff, !N.leb_le, !N.eqb_eq.
  intros H. split; [lia |].
  apply andb_false_iff. rewrite !N.leb_gt. lia.
Qed.

(** A line that opens with none of the three marker characters opens
    with no marker. *)
Lemma no_marker_head (c : N) (s : ustring) :
  (0x23 <> c /\ 0x2D <> c /\ 0x2A <> c)%N ->
  startsWith (lit "### ") (c :: s) = false /\
  startsWith (lit "## ") (c :: s) = false /\
  startsWith (lit "# ") (c :: s) = false /\
  startsWith (lit "- ") (c :: s) = false /\
  startsWith (lit "* ") (c :: s) = false /\
  startsWith (lit "**") (c :: s) = false.
Proof.
  intros (H1 & H2 & H3).
  repeat split;
    [ apply (startsWith_head _ 0x23%N) | apply (startsWith_head _ 0x23%N)
    | apply (startsWith_head _ 0x23%N) | apply (startsWith_head _ 0x2D%N)
    | apply (startsWith_head _ 0x2A%N) | apply (startsWith_head _ 0x2A%N) ];
    first [reflexivity | assumption].
Qed.

(** The reading of a line is unique: the description leaves no choice. *)
Lemma line_block_renderLine (line : ustring) (b : block) :
  line_block line b -> b = renderLine line.
Proof.
  intros H. destruct H as [t|t|t|t|t|ds t [N F]|line Ho Hc|line B|line M Nb Nw];
    unfold renderLine.
  - now rewrite startsWith_append, replace_prefix.
  - change (startsWith (lit "### ") (lit "## " ++ t)) with false. cbv iota.
    now rewrite startsWith_append, replace_prefix.
  - change (startsWith (lit "### ") (lit "# " ++ t)) with false.
    change (startsWith (lit "## ") (lit "# " ++ t)) with false. cbv iota.
    now rewrite startsWith_append, replace_prefix.
  - reflexivity.
  - reflexivity.
  - destruct ds as [|c ds]; [contradiction |].
    inversion F as [|? ? Hd _]; subst.
    destruct (no_marker_head c (ds ++ lit ". " ++ t) (digit_no_marker c Hd))
      as (E1 & E2 & E3 & E4 & E5 & _).
    pose proof (match_ordinal_append (c :: ds) t N F) as K.
    rewrite <- app_comm_cons in K |- *.
    rewrite E1, E2, E3, E4, E5. cbn [orb]. now rewrite K.
  - destruct Ho as [u ->].
    apply endsWith_iff in Hc.
    change (startsWith (lit "### ") (lit "**" ++ u)) with false.
    change (startsWith (lit "## ") (lit "**" ++ u)) with false.
    change (startsWith (lit "# ") (lit "**" ++ u)) with false.
    change (startsWith (lit "- ") (lit "**" ++ u)) with false.
    change (startsWith (lit "* ") (lit "**" ++ u)) with false.
    change (match_ordinal (lit "**" ++ u)) with (@None ustring).
    change (startsWith (lit "**") (lit "**" ++ u)) with true.
    cbv iota. cbn [orb andb]. now rewrite Hc.
  - pose proof (proj2 (trim_empty line) B) as T.
    destruct line as [|c r]; [reflexivity |].
    inversion B as [|? ? Hs _]; subst.
    destruct (space_no_marker c Hs) as (Hm & E6).
    destruct (no_marker_head c r Hm) as (E1 & E2 & E3 & E4 & E5 & E7).
    unfold match_ordinal. rewrite E1, E2, E3, E4, E5, E6, E7. cbn [orb andb].
    now rewrite bool_decide_eq_true_2.
  - destruct (startsWith (lit "### ") line) eqn:H3.
    { exfalso. apply M. left. now apply startsWith_iff. }
    destruct (startsWith (lit "## ") line) eqn:H2.
    { exfalso. apply M. right; left. now apply startsWith_iff. }
    destruct (startsWith (lit "# ") line) eqn:H1.
    { exfalso. apply M. do 2 right; left. now apply startsWith_iff. }
    destruct (startsWith (lit "- ") line) eqn:Hd.
    { exfalso. apply M. do 3 right; left. now apply startsWith_iff. }
    destruct (startsWith (lit "* ") line) eqn:Hs.
    { exfalso. apply M. do 4 right; left. now apply startsWith_iff. }
    cbn [orb].
    destruct (match_ordinal line) as [rest|] eqn:Hn.
    { exfalso. apply M. do 5 right.
      apply match_ordinal_split in Hn as (ds & N & F & ->).
      exists ds. split; [now split |]. exists rest. now rewrite <- app_assoc. }
    destruct (startsWith (lit "**") line && endsWith (lit "**") line) eqn:Hb.
    { exfalso. apply Nb. apply andb_prop in Hb as [Ho Hc].
      split; [now apply startsWith_iff | now apply endsWith_iff]. }
    case_bool_decide as Ht; [| reflexivity].
    exfalso. apply Nw. now apply trim_empty.
Qed.

Lemma Forall2_line_block_unique (lines : list ustring) (bs : list block) :
  Forall2 line_block lines bs -> bs = map renderLine lines.
Proof.
  induction 1 as [|l b ls bs H _ IH]; [reflexivity |].
  simpl. f_equal; [now apply line_block_renderLine | exact IH].
Qed.

Lemma Forall2_map_r {A B} (R : A -> B -> Prop) (f : A -> B) (l : list A) :
  (forall x, R x (f x)) -> Forall2 R l (map f l).
Proof. intros H. induction l; simpl; constructor; auto. Qed.

(** White space is what [trim] strips in the language, also outside
    Latin-1: a line of an ideographic space, an em space and a byte order
    mark is a spacer, not a paragraph. *)
Lemma wide_blank_line_is_spacer :
  blank wide_blank_line /\ renderLine wide_blank_line = Spacer.
Proof. split; [repeat constructor | reflexivity]. Qed.

(** C8 (as amended).  For every text but the empty one the formatter
    returns one block per line of the text, in order, and each block is
    the reading of its line alone: marker and space for the three
    heading levels and for list items ([-], [*], digits and a dot), a
    line opening and closing with two stars for a bold paragraph, white
    space for a spacer, a plain paragraph otherwise; no other list of
    blocks reads the lines that way.  The empty text yields no blocks at
    all ([null]).  The worked scenario's notes yield a level-1 heading
    [Topic] and a list item [point one]. *)
Theorem renderMarkdown_block_per_line :
  (forall text : ustring, text <> [] ->
     exists blocks : list block,
       renderMarkdown text = Some blocks /\
       length blocks = length (split LF text) /\
       Forall2 line_block (split LF text) blocks /\
       (forall blocks', Forall2 line_block (split LF text) blocks' ->
                        blocks' = blocks)) /\
  renderMarkdown [] = None /\
  renderMarkdown sample_notes
  = Some [Heading 1 (lit "Topic"); ListItem (lit "point one")].
Proof.
  split; [| split; reflexivity].
  intros text Hne. unfold renderMarkdown.
  destruct text as [|c text]; [contradiction |].
  eexists. split; [reflexivity |]. split; [| split].
  - apply length_map.
  - apply Forall2_map_r, renderLine_classified.
  - apply Forall2_line_block_unique.
Qed.

Lemma renderMarkdown_block_per_line_witness :
  sample_notes <> [] /\
  exists blocks : list block,
    renderMarkdown sample_notes = Some blocks /\
    length blocks = length (split LF sample_notes) /\
    Forall2 line_block (split LF sample_notes) blocks /\
    (forall blocks', Forall2 line_block (split LF sample_notes) blocks' ->
                     blocks' = blocks).
Proof.
  split; [discriminate |].
  apply (proj1 renderMarkdown_block_per_line sample_notes). discriminate.
Defined.

(** C8, as stated, fails on the empty text: its one (empty) line gets no
    block, the formatter returns [null]. *)
Lemma renderMarkdown_empty_text_no_blocks :
  split LF [] = [[]] /\
  ~ (exists blocks : list block,
       renderMarkdown [] = Some blocks /\
       length blocks = length (split LF [])).
Proof.
  split; [reflexivity |]. intros (blocks & H & _). discriminate H.
Qed.

(** *** Lines *)

Lemma split_append_at (c : N) (a b : ustring) :
  split c (a ++ c :: b) = split c a ++ split c b.
Proof.
  induction a as [|x a IH]; cbn [app split].
  - now rewrite N.eqb_refl.
  - destruct (x =? c)%N; [now rewrite IH |].
    rewrite IH. pose proof (split_nonempty c a) as N.
    destruct (split c a); [contradiction | reflexivity].
Qed.

Lemma split_length (c : N) (s : ustring) :
  length (split c s) = S (occurrences c s).
Proof.
  induction s as [|x s IH]; cbn [split occurrences]; [reflexivity |].
  destruct (x =? c)%N; cbn [length]; [now rewrite IH |].
  pose proof (split_nonempty c s) as N.
  destruct (split c s); [contradiction | exact IH].
Qed.

(** X12.  The formatter works line by line: the blocks of two texts
    joined by a line break are the blocks of the first followed by the
    blocks of the second; nothing is joined across the break. *)
Theorem renderMarkdown_joins_nothing (a b : ustring) :
  a <> [] -> b <> [] ->
  exists blocks_a blocks_b,
    renderMarkdown a = Some blocks_a /\
    renderMarkdown b = Some blocks_b /\
    renderMarkdown (a ++ LF :: b) = Some (blocks_a ++ blocks_b).
Proof.
  intros Ha Hb. unfold renderMarkdown.
  rewrite split_append_at, map_app.
  destruct a as [|x a]; [contradiction |].
  destruct b as [|y b]; [contradiction |].
  cbn [app]. eauto.
Qed.

Lemma renderMarkdown_joins_nothing_witness :
  lit "# A" <> [] /\ lit "- b" <> [] /\
  exists blocks_a blocks_b,
    renderMarkdown (lit "# A") = Some blocks_a /\
    renderMarkdown (lit "- b") = Some blocks_b /\
    renderMarkdown (lit "# A" ++ LF :: lit "- b") = Some (blocks_a ++ blocks_b).
Proof.
  assert (Ha : lit "# A" <> []) by discriminate.
  assert (Hb : lit "- b" <> []) by discriminate.
  split; [exact Ha |]. split; [exact Hb |].
  exact (renderMarkdown_joins_nothing (lit "# A") (lit "- b") Ha Hb).
Defined.

(** X13.  A text with [n] line breaks gives [n + 1] blocks, and a text
    that ends with a line break ends with a spacer. *)
Theorem renderMarkdown_counts_line_breaks (text : ustring) :
  text <> [] ->
  exists blocks,
    renderMarkdown text = Some blocks /\
    length blocks = S (occurrences LF text) /\
    (forall t, text = t ++ [LF] -> last blocks = Some Spacer /\
               length blocks = S (length (split LF t))).
Proof.
  intros H. unfold renderMarkdown.
  destruct text as [|c text]; [contradiction |].
  eexists. split; [reflexivity |]. split.
  - now rewrite length_map, split_length.
  - intros t ->. rewrite split_append_at, map_app.
    change (map renderLine (split LF [])) with [Spacer].
    split.
    + apply last_snoc.
    + rewrite length_app, length_map. cbn. lia.
Qed.

Lemma renderMarkdown_counts_line_breaks_witness :
  sample_notes <> [] /\
  exists blocks,
    renderMarkdown sample_notes = Some blocks /\
    length blocks = S (occurrences LF sample_notes) /\
    (forall t, sample_notes = t ++ [LF] -> last blocks = Some Spacer /\
               length blocks = S (length (split LF t))).
Proof.
  assert (H : sample_notes <> []) by discriminate.
  split; [exact H |]. exact (renderMarkdown_counts_line_breaks sample_notes H).
Defined.

(** *** Bold lines *)

Lemma remove_double_stars_other (c : N) (r : ustring) :
  c <> STAR -> remove_double_stars (c :: r) = c :: remove_double_stars r.
Proof.
  intros H. destruct r as [|d r]; [reflexivity |].
  cbn [remove_double_stars]. destruct (N.eqb_spec c STAR); [contradiction |].
  reflexivity.
Qed.

Lemma remove_double_stars_star_other (d : N) (r : ustring) :
  d <> STAR ->
  remove_double_stars (STAR :: d :: r) = STAR :: remove_double_stars (d :: r).
Proof.
  intros H. cbn [remove_double_stars].
  destruct (N.eqb_spec d STAR); [contradiction |].
  now rewrite andb_false_r.
Qed.

Lemma no_double_star_other (c : N) (r : ustring) :
  c <> STAR -> no_double_star (c :: r) = no_double_star r.
Proof.
  intros H. destruct r as [|d r]; [reflexivity |].
  cbn [no_double_star]. destruct (N.eqb_spec c STAR); [contradiction |].
  reflexivity.
Qed.

Lemma no_double_star_star_other (d : N) (r : ustring) :
  d <> STAR -> no_double_star (STAR :: d :: r) = no_double_star (d :: r).
Proof.
  intros H. cbn [no_double_star].
  destruct (N.eqb_spec d STAR); [contradiction |].
  now rewrite andb_false_r.
Qed.

Lemma remove_double_stars_clean (s : ustring) :
  no_double_star (remove_double_stars s) = true.
Proof.
  assert (G : forall n s, (length s <= n)%nat ->
                          no_double_star (remove_double_stars s) = true).
  { clear s. induction n as [|n IH]; intros s L.
    - destruct s; [reflexivity | cbn in L; lia].
    - destruct s as [|c r]; [reflexivity |]. cbn in L.
      destruct (N.eq_dec c STAR) as [->|Hc].
      + destruct r as [|d r']; [reflexivity |]. cbn in L.
        destruct (N.eq_dec d STAR) as [->|Hd].
        * change (remove_double_stars (STAR :: STAR :: r'))
            with (remove_double_stars r').
          apply IH. lia.
        * rewrite (remove_double_stars_star_other d r' Hd).
          rewrite (remove_double_stars_other d r' Hd).
          rewrite (no_double_star_star_other d _ Hd).
          rewrite <- (remove_double_stars_other d r' Hd). apply IH. cbn. lia.
      + rewrite (remove_double_stars_other c r Hc), (no_double_star_other c _ Hc).
        apply IH. lia. }
  apply (G (length s)). lia.
Qed.

Lemma remove_double_stars_length (s : ustring) :
  (length (remove_double_stars s) <= length s)%nat.
Proof.
  assert (G : forall n s, (length s <= n)%nat ->
                (length (remove_double_stars s) <= length s)%nat).
  { clear s. induction n as [|n IH]; intros s L.
    - destruct s; [cbn; lia | cbn in L; lia].
    - destruct s as [|c r]; [cbn; lia |]. cbn in L.
      destruct (N.eq_dec c STAR) as [->|Hc].
      + destruct r as [|d r']; [cbn; lia |]. cbn in L.
        destruct (N.eq_dec d STAR) as [->|Hd].
        * change (remove_double_stars (STAR :: STAR :: r'))
            with (remove_double_stars r').
          specialize (IH r' ltac:(lia)). cbn [length]. lia.
        * rewrite (remove_double_stars_star_other d r' Hd).
          specialize (IH (d :: r') ltac:(cbn; lia)).
          cbn [length] in *. lia.
      + rewrite (remove_double_stars_other c r Hc).
        specialize (IH r ltac:(lia)). cbn [length]. lia. }
  apply (G (length s)). lia.
Qed.

Lemma no_double_star_sound (t u v : ustring) :
  no_double_star t = true -> t <> u ++ lit "**" ++ v.
Proof.
  revert t. induction u as [|c u IH]; intros t H E; subst t.
  - discriminate H.
  - destruct (N.eq_dec c STAR) as [->|Hc].
    + destruct u as [|d u'].
      * discriminate H.
      * cbn [app] in H.
        destruct (N.eq_dec d STAR) as [->|Hd]; [discriminate H |].
        rewrite (no_double_star_star_other d _ Hd) in H.
        now apply (IH ((d :: u') ++ lit "**" ++ v) H).
    + cbn [app] in H.
      rewrite (no_double_star_other c _ Hc) in H.
      now apply (IH (u ++ lit "**" ++ v) H).
Qed.

(** X14.  The text of a bold paragraph holds no pair of stars any more:
    every bold marker of the line is removed, wherever it stands. *)
Theorem bold_paragraph_has_no_markers (line text : ustring) :
  renderLine line = BoldParagraph text ->
  text = remove_double_stars line /\
  (forall u v, text <> u ++ lit "**" ++ v) /\
  (length text + 2 <= length line)%nat.
Proof.
  intros H.
  assert (E : text = remove_double_stars line /\
              startsWith (lit "**") line && endsWith (lit "**") line = true).
  { unfold renderLine in H.
    destruct (startsWith (lit "### ") line); [discriminate |].
    destruct (startsWith (lit "## ") line); [discriminate |].
    destruct (startsWith (lit "# ") line); [discriminate |].
    destruct (startsWith (lit "- ") line || startsWith (lit "* ") line);
      [discriminate |].
    destruct (match_ordinal line); [discriminate |].
    destruct (startsWith (lit "**") line && endsWith (lit "**") line);
      [| now case_bool_decide].
    injection H as <-. auto. }
  destruct E as [-> B]. split; [reflexivity |]. split.
  - intros u v. apply no_double_star_sound, remove_double_stars_clean.
  - apply andb_prop in B as [B _]. apply startsWith_iff in B as [u ->].
    change (remove_double_stars (lit "**" ++ u)) with (remove_double_stars u).
    pose proof (remove_double_stars_length u).
    change (length (lit "**" ++ u)) with (S (S (length u))). lia.
Qed.

Lemma bold_paragraph_has_no_markers_witness :
  renderLine (lit "**Key** terms**") = BoldParagraph (lit "Key terms") /\
  (forall u v, lit "Key terms" <> u ++ lit "**" ++ v).
Proof.
  assert (H : renderLine (lit "**Key** terms**") = BoldParagraph (lit "Key terms"))
    by reflexivity.
  split; [exact H |].
  exact (proj1 (proj2 (bold_paragraph_has_no_markers _ _ H))).
Defined.

End MarkdownFacts.


(** ** Base64 and the request payload *)

Section Base64Facts.
Import Base64.

(** Induction over a list three elements at a time. *)
Lemma list_ind3 {A} (P : list A -> Prop) :
  P [] -> (forall a, P [a]) -> (forall a b, P [a; b]) ->
  (forall a b c l, P l -> P (a :: b :: c :: l)) ->
  forall l, P l.
Proof.
  intros H0 H1 H2 H3 l.
  assert (G : P l /\ (forall a, P (a :: l)) /\ (forall a b, P (a :: b :: l))).
  { induction l as [|x l (IH0 & IH1 & IH2)]; [now repeat split |].
    repeat split; auto. }
  exact (proj1 G).
Qed.

(** The alphabet and [value] agree, and no digit is the padding
    character or a comma. *)
Lemma digit_value (v : N) :
  (v < 64)%N ->
  value (digit v) = Some v /\
  Ascii.eqb (digit v) pad = false /\
  digit v <> ","%char.
Proof.
  intros H.
  assert (E : exists k, v = N.of_nat k /\ (k < 64)%nat).
  { exists (N.to_nat v). split; [now rewrite N2Nat.id | lia]. }
  destruct E as (k & -> & Hk). clear H.
  do 64 (destruct k as [|k]; [vm_compute; repeat split; discriminate |]).
  lia.
Qed.

Lemma to_N_lt (b : byte) : (Byte.to_N b < 256)%N.
Proof. pose proof (Byte.to_N_bounded b). lia. Qed.

Ltac euclid := zify; Z.to_euclidean_division_equations; lia.

Lemma sextet1 (x : N) : (x < 256 -> x / 4 < 64)%N.
Proof. intros. euclid. Qed.
Lemma sextet2 (x y : N) : (x < 256 -> y < 256 -> x mod 4 * 16 + y / 16 < 64)%N.
Proof. intros. euclid. Qed.
Lemma sextet3 (y z : N) : (y < 256 -> z < 256 -> y mod 16 * 4 + z / 64 < 64)%N.
Proof. intros. euclid. Qed.
Lemma sextet4 (z : N) : (z mod 64 < 64)%N.
Proof. euclid. Qed.
Lemma sextet2_last (x : N) : (x mod 4 * 16 < 64)%N.
Proof. euclid. Qed.
Lemma sextet3_last (y : N) : (y mod 16 * 4 < 64)%N.
Proof. euclid. Qed.

Lemma octet1 (x y : N) :
  (x < 256 -> y < 256 -> x / 4 * 4 + (x mod 4 * 16 + y / 16) / 16 = x)%N.
Proof. intros. euclid. Qed.
Lemma octet2 (x y z : N) :
  (x < 256 -> y < 256 -> z < 256 ->
   (x mod 4 * 16 + y / 16) mod 16 * 16 + (y mod 16 * 4 + z / 64) / 4 = y)%N.
Proof. intros. euclid. Qed.
Lemma octet3 (y z : N) :
  (y < 256 -> z < 256 -> (y mod 16 * 4 + z / 64) mod 4 * 64 + z mod 64 = z)%N.
Proof. intros. euclid. Qed.

Lemma byte1_sextets (a b : byte) :
  byte1 (Byte.to_N a / 4) (Byte.to_N a mod 4 * 16 + Byte.to_N b / 16) = Some a.
Proof.
  unfold byte1. rewrite octet1 by apply to_N_lt. apply Byte.of_to_N.
Qed.

Lemma byte2_sextets (a b c : byte) :
  byte2 (Byte.to_N a mod 4 * 16 + Byte.to_N b / 16)
        (Byte.to_N b mod 16 * 4 + Byte.to_N c / 64) = Some b.
Proof.
  unfold byte2. rewrite octet2 by apply to_N_lt. apply Byte.of_to_N.
Qed.

Lemma byte3_sextets (b c : byte) :
  byte3 (Byte.to_N b mod 16 * 4 + Byte.to_N c / 64) (Byte.to_N c mod 64) = Some c.
Proof.
  unfold byte3. rewrite octet3 by apply to_N_lt. apply Byte.of_to_N.
Qed.

Lemma decode_group (c1 c2 c3 c4 : ascii) (rest : string) :
  decode (String c1 (String c2 (String c3 (String c4 rest)))) =
  (v1 ← value c1; v2 ← value c2; a ← byte1 v1 v2;
   if Ascii.eqb c3 pad then
     if Ascii.eqb c4 pad && String.eqb rest "" then Some [a] else None
   else
     v3 ← value c3; b ← byte2 v2 v3;
     if Ascii.eqb c4 pad then
       if String.eqb rest "" then Some [a; b] else None
     else
       v4 ← value c4; c ← byte3 v3 v4;
       tl ← decode rest; Some (a :: b :: c :: tl)).
Proof. reflexivity. Qed.

Ltac digit_facts v :=
  let Hv := fresh "Hv" in let Hp := fresh "Hp" in let Hc := fresh "Hc" in
  assert (value (digit v) = Some v /\ Ascii.eqb (digit v) pad = false /\
          digit v <> ","%char) as (Hv & Hp & Hc)
    by (apply digit_value;
        first [ apply sextet1, to_N_lt | apply sextet2; apply to_N_lt
              | apply sextet3; apply to_N_lt | apply sextet4
              | apply sextet2_last | apply sextet3_last ]);
  try rewrite Hv; try rewrite Hp.

(** Decoding undoes encoding, on every byte sequence. *)
Lemma decode_encode (bs : list byte) : decode (encode bs) = Some bs.
Proof.
  induction bs as [|a|a b|a b c l IH] using list_ind3.
  - reflexivity.
  - pose proof (byte1_sextets a "000"%byte) as B1.
    change (Byte.to_N "000") with 0%N in B1. rewrite N.add_0_r in B1.
    cbn [encode]. rewrite decode_group.
    digit_facts (Byte.to_N a / 4)%N. digit_facts (Byte.to_N a mod 4 * 16)%N.
    cbn [mbind option_bind]. rewrite B1. reflexivity.
  - pose proof (byte1_sextets a b) as B1.
    pose proof (byte2_sextets a b "000"%byte) as B2.
    change (Byte.to_N "000") with 0%N in B2. rewrite N.add_0_r in B2.
    cbn [encode]. rewrite decode_group.
    digit_facts (Byte.to_N a / 4)%N.
    digit_facts (Byte.to_N a mod 4 * 16 + Byte.to_N b / 16)%N.
    cbn [mbind option_bind]. rewrite B1. cbn [mbind option_bind].
    digit_facts (Byte.to_N b mod 16 * 4)%N.
    cbn [mbind option_bind]. rewrite B2. reflexivity.
  - pose proof (byte1_sextets a b) as B1.
    pose proof (byte2_sextets a b c) as B2.
    pose proof (byte3_sextets b c) as B3.
    cbn [encode]. rewrite decode_group.
    digit_facts (Byte.to_N a / 4)%N.
    digit_facts (Byte.to_N a mod 4 * 16 + Byte.to_N b / 16)%N.
    cbn [mbind option_bind]. rewrite B1. cbn [mbind option_bind].
    digit_facts (Byte.to_N b mod 16 * 4 + Byte.to_N c / 64)%N.
    cbn [mbind option_bind]. rewrite B2. cbn [mbind option_bind].
    digit_facts (Byte.to_N c mod 64)%N.
    cbn [mbind option_bind]. rewrite B3. cbn [mbind option_bind].
    rewrite IH. reflexivity.
Qed.

(** The encoded text never holds a comma. *)
Lemma encode_comma_free (bs : list byte) : Gemini.comma_free (encode bs).
Proof.
  unfold Gemini.comma_free.
  induction bs as [|a|a b|a b c l IH] using list_ind3; cbn [encode].
  - constructor.
  - digit_facts (Byte.to_N a / 4)%N. digit_facts (Byte.to_N a mod 4 * 16)%N.
    repeat constructor; auto; discriminate.
  - digit_facts (Byte.to_N a / 4)%N.
    digit_facts (Byte.to_N a mod 4 * 16 + Byte.to_N b / 16)%N.
    digit_facts (Byte.to_N b mod 16 * 4)%N.
    repeat constructor; auto; discriminate.
  - digit_facts (Byte.to_N a / 4)%N.
    digit_facts (Byte.to_N a mod 4 * 16 + Byte.to_N b / 16)%N.
    digit_facts (Byte.to_N b mod 16 * 4 + Byte.to_N c / 64)%N.
    digit_facts (Byte.to_N c mod 64)%N.
    cbn [list_ascii_of_string]. repeat (constructor; [assumption |]). exact IH.
Qed.

End Base64Facts.

Section PayloadFacts.
Import JS Gemini.

Lemma comma_free_append (a b : string) :
  comma_free a -> comma_free b -> comma_free (a +:+ b).
Proof.
  unfold comma_free. induction a as [|c a IH]; simpl; [auto |].
  intros Ha Hb. inversion Ha; subst. constructor; auto.
Qed.

Lemma split_comma_free (s : string) : comma_free s -> split "," s = [s].
Proof.
  unfold comma_free. induction s as [|c s IH]; simpl; [reflexivity |].
  intros H. inversion H as [|? ? Hc Hs]; subst.
  destruct (Ascii.eqb c ",") eqn:E; [apply Ascii.eqb_eq in E; contradiction |].
  now rewrite IH.
Qed.

Lemma split_at_comma (a b : string) :
  comma_free a -> split "," (a +:+ String "," b) = a :: split "," b.
Proof.
  unfold comma_free. induction a as [|c a IH]; simpl; [reflexivity |].
  intros H. inversion H as [|? ? Hc Hs]; subst.
  destruct (Ascii.eqb c ",") eqn:E; [apply Ascii.eqb_eq in E; contradiction |].
  now rewrite IH.
Qed.

(** What [blobToBase64] resolves with is the base64 text of the bytes,
    whenever the blob's type holds no comma. *)
Lemma blobToBase64_encode (b : Blob) :
  comma_free (blob_type b) ->
  blobToBase64 b = Some (Base64.encode (blob_bytes b)).
Proof.
  intros H. unfold blobToBase64, readAsDataURL.
  set (ty := if String.eqb (blob_type b) "" then "application/octet-stream"
             else blob_type b).
  assert (Hty : comma_free ty).
  { subst ty. destruct (String.eqb (blob_type b) ""); [| exact H].
    unfold comma_free. cbn. repeat constructor; discriminate. }
  replace ("data:" +:+ ty +:+ ";base64," +:+ Base64.encode (blob_bytes b))
    with (("data:" +:+ ty +:+ ";base64") +:+
          String "," (Base64.encode (blob_bytes b))).
  - rewrite split_at_comma.
    + rewrite split_comma_free by apply encode_comma_free. reflexivity.
    + apply (comma_free_append "data:").
      * unfold comma_free. cbn. repeat constructor; discriminate.
      * apply comma_free_append; [exact Hty |].
        unfold comma_free. cbn. repeat constructor; discriminate.
  - rewrite !append_assoc. reflexivity.
Qed.

(** X15.  For a blob whose type holds no comma, the request part
    carries the base64 text of the blob's bytes, which decodes to those
    bytes; its mime type is the blob's type, or [audio/webm] when the
    blob has none, and is never empty. *)
Theorem inlineData_of_blob (b : Blob) :
  comma_free (blob_type b) ->
  data (inlineData b) = Some (Base64.encode (blob_bytes b)) /\
  Base64.decode (Base64.encode (blob_bytes b)) = Some (blob_bytes b) /\
  (blob_type b = "" -> mimeType (inlineData b) = "audio/webm") /\
  (blob_type b <> "" -> mimeType (inlineData b) = blob_type b) /\
  mimeType (inlineData b) <> "".
Proof.
  intros H. unfold inlineData. cbn [data mimeType].
  split; [now apply blobToBase64_encode |].
  split; [apply decode_encode |].
  destruct (String.eqb (blob_type b) "") eqn:E.
  - apply String.eqb_eq in E. repeat split; auto; try discriminate.
    intros N. contradiction.
  - apply String.eqb_neq in E. repeat split; auto. intros N. contradiction.
Qed.

Lemma inlineData_of_blob_witness :
  comma_free (blob_type (mkBlob ["001"%byte] "")) /\
  data (inlineData (mkBlob ["001"%byte] "")) = Some (Base64.encode ["001"%byte]) /\
  mimeType (inlineData (mkBlob ["001"%byte] "")) = "audio/webm".
Proof.
  assert (H : comma_free (blob_type (mkBlob ["001"%byte] ""))) by constructor.
  split; [exact H |].
  split; [exact (proj1 (inlineData_of_blob _ H)) |].
  exact (proj1 (proj2 (proj2 (inlineData_of_blob _ H))) eq_refl).
Defined.

(** X16.  When the blob's type does hold a comma, what [blobToBase64]
    resolves with is not the encoded audio but a piece of the data URL's
    header: the type's part after its first comma, followed by
    [;base64]. *)
Theorem blobToBase64_comma_in_type (b : Blob) (t1 t2 : string) :
  blob_type b = t1 +:+ String "," t2 ->
  comma_free t1 -> comma_free t2 ->
  blobToBase64 b = Some (t2 +:+ ";base64").
Proof.
  intros E H1 H2. unfold blobToBase64, readAsDataURL. rewrite E.
  assert (N : String.eqb (t1 +:+ String "," t2) "" = false) by now destruct t1.
  rewrite N.
  replace ("data:" +:+ (t1 +:+ String "," t2) +:+ ";base64," +:+
           Base64.encode (blob_bytes b))
    with (("data:" +:+ t1) +:+ String ","
          ((t2 +:+ ";base64") +:+ String "," (Base64.encode (blob_bytes b)))).
  - rewrite split_at_comma.
    + rewrite split_at_comma; [reflexivity |].
      apply comma_free_append; [exact H2 |].
      unfold comma_free. cbn. repeat constructor; discriminate.
    + apply (comma_free_append "data:"); [| exact H1].
      unfold comma_free. cbn. repeat constructor; discriminate.
  - rewrite !append_assoc. reflexivity.
Qed.

Lemma blobToBase64_comma_in_type_witness :
  blobToBase64 (mkBlob ["001"%byte] "audio/x,y") = Some "y;base64".
Proof.
  assert (H1 : comma_free "audio/x")
    by (unfold comma_free; cbn; repeat constructor; discriminate).
  assert (H2 : comma_free "y")
    by (unfold comma_free; cbn; repeat constructor; discriminate).
  exact (blobToBase64_comma_in_type (mkBlob ["001"%byte] "audio/x,y")
           "audio/x" "y" eq_refl H1 H2).
Defined.
End PayloadFacts.

(** ** The session machine *)

Section AppFacts.
Import Types App.
Local Open Scope list_scope.

Ltac unfold_handlers :=
  unfold step, exec, handle, startRecording, startRecording_resolved,
    startRecording_rejected, tick, ondataavailable, onstop, stopRecording,
    generateNotes, generateNotes_resolved, generateNotes_rejected, reset,
    generateNotesFromAudio_call, getUserMedia_resolved, newMediaRecorder,
    recorder_start, recorder_stop, setInterval, clearInterval, createObjectURL,
    stopTracks, fresh, skip, read, modState, modPlatform,
    setAppState, setSession, setStream, setDuration, setError,
    set_mediaRecorderRef, set_chunksRef, set_timerRef, set_recorders,
    set_activeTimers, set_liveStreams, set_pendingMedia, set_pendingNotes,
    mbind, mret, StateM_bind, StateM_ret in *.

Lemma run_app (es1 es2 : list Event) (c : Config) :
  run (es1 ++ es2) c = run es2 (run es1 c).
Proof. unfold run. apply fold_left_app. Qed.

Lemma run_snoc (es : list Event) (e : Event) (c : Config) :
  run (es ++ [e]) c = step e (run es c).
Proof. now rewrite run_app. Qed.

(** An invariant of every step holds along every run. *)
Lemma run_invariant (P : Config -> Prop) :
  (forall e c, P c -> P (step e c)) ->
  forall es c, P c -> P (run es c).
Proof.
  intros Hstep es. induction es as [|e es IH]; intros c Hc; [exact Hc |].
  simpl. apply IH, Hstep, Hc.
Qed.

(** Case analysis on one step: the event, then the tests the handler
    makes. *)
Ltac step_cases e s p :=
  destruct e as [ | | | ?t | | ?r ?data ?uuid ?now | | ?text | | ];
  unfold_handlers; cbn;
  [ | destruct (pendingMedia p) | destruct (pendingMedia p)
    | case_bool_decide
    | destruct (mediaRecorderRef s); cbn;
      [ destruct (AppState_eqb (appState s) RECORDING) eqn:?; cbn;
        [ destruct (timerRef s) as [[|?]|] | ] | ]
    | match goal with
      | |- context [recorders p !! ?r] =>
          destruct (recorders p !! r) as [[? ? []]|] eqn:?
      end; cbn;
      [ | destruct data | | ]
    | destruct (session s) as [?x|] eqn:?; cbn;
      [ match goal with
        | |- context [audioBlob ?x] => destruct (audioBlob x) eqn:?
        end | ]
    | destruct (pendingNotes p) | destruct (pendingNotes p) | ];
  cbn.

Lemma step_appState (e : Event) (c : Config) :
  appState (fst (step e c)) = appState (fst c) \/
  appState (fst (step e c)) = IDLE \/
  appState (fst (step e c)) = RECORDING \/
  appState (fst (step e c)) = REVIEW \/
  appState (fst (step e c)) = PROCESSING \/
  appState (fst (step e c)) = COMPLETED.
Proof.
  destruct c as [s p]. destruct e; unfold_handlers; cbn.
  - auto 10.
  - destruct (pendingMedia p); cbn; auto 10.
  - destruct (pendingMedia p); cbn; auto 10.
  - case_bool_decide; cbn; auto 10.
  - destruct (mediaRecorderRef s); cbn; auto 10.
    destruct (AppState_eqb (appState s) RECORDING); cbn; auto 10.
    destruct (timerRef s) as [[|t]|]; cbn; auto 10.
  - destruct (recorders p !! r) as [[? ? []]|]; cbn; auto 10.
    destruct data; cbn; auto 10.
  - destruct (session s) as [x|]; cbn; auto 10.
    destruct (audioBlob x); cbn; auto 10.
  - destruct (pendingNotes p); cbn; auto 10.
  - destruct (pendingNotes p); cbn; auto 10.
  - auto 10.
Qed.

Lemma step_not_ERROR (e : Event) (c : Config) :
  appState (fst c) <> ERROR -> appState (fst (step e c)) <> ERROR.
Proof.
  intros H. destruct (step_appState e c) as [E|[E|[E|[E|[E|E]]]]];
    rewrite E; [exact H | discriminate ..].
Qed.

(** The interval callback only moves the counter. *)
Lemma step_Tick (t : nat) (s : State) (p : Platform) :
  t ∈ activeTimers p ->
  step (Tick t) (s, p) =
  (mkState (appState s) (session s) (stream s) (duration s + 1)%Z (error s)
           (mediaRecorderRef s) (chunksRef s) (timerRef s), p).
Proof.
  intros H. unfold_handlers. cbn. rewrite bool_decide_eq_true_2 by exact H.
  reflexivity.
Qed.

Lemma run_Ticks (t : nat) (n : nat) (s : State) (p : Platform) :
  t ∈ activeTimers p ->
  run (replicate n (Tick t)) (s, p) =
  (mkState (appState s) (session s) (stream s) (duration s + Z.of_nat n)%Z
           (error s) (mediaRecorderRef s) (chunksRef s) (timerRef s), p).
Proof.
  intros H. revert s. induction n as [|n IH]; intros s.
  - cbn [replicate run fold_left]. rewrite Z.add_0_r. now destruct s.
  - cbn [replicate run fold_left]. rewrite (step_Tick t s p H).
    fold (run (replicate n (Tick t))). rewrite IH. cbn. f_equal. f_equal. lia.
Qed.

(** [onstop] stores what its closure holds as [duration], whatever the
    counter shows by then. *)
Lemma RecorderStopped_session (c : Config) (r audioStream : nat) (d : Z)
      (data : list byte) (uuid : string) (now : Z) :
  recorders (snd c) !! r = Some (mkRecorder audioStream d stopping) ->
  exists blob url,
    session (fst (step (RecorderStopped r data uuid now) c)) =
    Some (mkNoteSession uuid now (Some blob) (Some url) d None None) /\
    Gemini.blob_type blob = "audio/webm".
Proof.
  destruct c as [s p]. intros H. unfold_handlers. cbn in *. rewrite H.
  destruct data; cbn; eauto.
Qed.

Lemma feasible_app (es1 es2 : list Event) (c : Config) :
  feasible (es1 ++ es2) c = feasible es1 c && feasible es2 (run es1 c).
Proof.
  revert c. induction es1 as [|e es1 IH]; intros c; [reflexivity |].
  cbn [app feasible run fold_left]. rewrite IH. fold (run es1 (step e c)).
  now rewrite andb_assoc.
Qed.

Lemma feasible_Ticks (t : nat) (n : nat) (s : State) (p : Platform) :
  t ∈ activeTimers p -> feasible (replicate n (Tick t)) (s, p) = true.
Proof.
  intros H. revert s. induction n as [|n IH]; intros s; [reflexivity |].
  cbn [replicate feasible]. rewrite (step_Tick t s p H), IH.
  unfold enabled. cbn. now rewrite bool_decide_eq_true_2.
Qed.

(** C1 (the code departs from the claim).  A capture of [n] ticks,
    whatever [n] is, made of events the page and the platform really
    produce: stopping leads to [REVIEW] and builds a session, but the
    session's [duration] is 0, the value the counter had when recording
    was started, while the counter itself shows [n]. *)
Theorem stopped_session_duration_is_stale
        (n : nat) (data : list byte) (uuid : string) (now : Z) :
  let events := [StartRecording; MediaGranted] ++ replicate n (Tick 3) ++
                [StopRecording; RecorderStopped 2 data uuid now] in
  let c := run events init in
  feasible events init = true /\
  appState (fst c) = REVIEW /\
  duration (fst c) = Z.of_nat n /\
  Types.duration <$> session (fst c) = Some 0%Z.
Proof.
  cbv zeta. rewrite !feasible_app, !run_app.
  set (c0 := run [StartRecording; MediaGranted] init).
  assert (F0 : feasible [StartRecording; MediaGranted] init = true)
    by (vm_compute; reflexivity).
  assert (E0 : c0 = (mkState RECORDING None (Some 1) 0%Z None (Some 2) [] (Some 3),
                     snd c0)) by (vm_compute; reflexivity).
  assert (T : 3 ∈ activeTimers (snd c0)) by (vm_compute; set_solver).
  assert (R : recorders (snd c0) !! 2 = Some (mkRecorder 1 0%Z recording))
    by (vm_compute; reflexivity).
  rewrite F0, E0, (feasible_Ticks 3 n _ _ T), (run_Ticks 3 n _ _ T).
  cbn [appState session stream duration error mediaRecorderRef chunksRef
       timerRef andb].
  rewrite Z.add_0_l. generalize (Z.of_nat n). intros d.
  destruct c0 as [s0 p0]. cbn [snd] in *.
  unfold run, enabled. cbn [fold_left feasible offered ready].
  unfold_handlers. cbn. rewrite lookup_alter_eq, R. cbn.
  destruct data; cbn; auto.
Qed.

(** C10.  From the first render on, whatever events arrive in whatever
    order, [appState] is one of [IDLE], [RECORDING], [REVIEW],
    [PROCESSING], [COMPLETED] and never [ERROR]; a failed note
    generation puts the machine in [REVIEW]. *)
Theorem ERROR_state_unreachable :
  (forall es : list Event,
     appState (fst (run es init)) <> ERROR /\
     In (appState (fst (run es init)))
        [IDLE; RECORDING; REVIEW; PROCESSING; COMPLETED]) /\
  (forall c : Config,
     pendingNotes (snd c) <> [] ->
     appState (fst (step NotesFailure c)) = REVIEW).
Proof.
  split.
  - intros es.
    assert (H : appState (fst (run es init)) <> ERROR).
    { apply (run_invariant (fun c => appState (fst c) <> ERROR)).
      - intros e c. apply step_not_ERROR.
      - discriminate. }
    split; [exact H |].
    destruct (appState (fst (run es init))); simpl; auto 10.
  - intros [s p] H. unfold_handlers. cbn in *.
    destruct (pendingNotes p); [contradiction | reflexivity].
Qed.

Lemma ERROR_state_unreachable_witness :
  pendingNotes (snd (run [StartRecording; MediaGranted; StopRecording;
                          RecorderStopped 2 ["001"%byte] "id" 0%Z;
                          GenerateNotes] init)) <> [] /\
  appState (fst (step NotesFailure
                   (run [StartRecording; MediaGranted; StopRecording;
                         RecorderStopped 2 ["001"%byte] "id" 0%Z;
                         GenerateNotes] init))) = REVIEW.
Proof.
  split; [vm_compute; discriminate |].
  apply (proj2 ERROR_state_unreachable). vm_compute. discriminate.
Defined.

(** C2.  In [REVIEW], with a session that holds its audio and no notes:
    a note generation that is started and then fails passes through
    [PROCESSING] and ends in [REVIEW] with a non-empty error message and
    the very same session, so the audio is untouched, the notes are
    still absent, and generation can be started again. *)
Theorem generateNotes_failure_keeps_session
        (c : Config) (sess : NoteSession) (blob : Gemini.Blob) :
  appState (fst c) = REVIEW ->
  session (fst c) = Some sess ->
  audioBlob sess = Some blob ->
  notes sess = None ->
  let c1 := step GenerateNotes c in
  let c2 := step NotesFailure c1 in
  appState (fst c1) = PROCESSING /\
  appState (fst c2) = REVIEW /\
  (exists msg, error (fst c2) = Some msg /\ msg <> "") /\
  (exists sess', session (fst c2) = Some sess' /\ sess' = sess /\
                 audioBlob sess' = Some blob /\ notes sess' = None) /\
  appState (fst (step GenerateNotes c2)) = PROCESSING.
Proof.
  destruct c as [s p]. cbn [fst snd]. intros Hst Hs Hb Hn.
  unfold_handlers. cbn. rewrite Hs, Hb. cbn.
  destruct (pendingNotes p ++ [blob]) eqn:Q.
  { apply app_eq_nil in Q as [_ Q]. discriminate. }
  cbn. rewrite Hs, Hb. cbn.
  repeat split; eauto; try discriminate.
Qed.

Lemma generateNotes_failure_keeps_session_witness :
  appState (fst review_config) = REVIEW /\
  session (fst review_config) = Some review_session /\
  appState (fst (step NotesFailure (step GenerateNotes review_config))) = REVIEW /\
  (exists msg, error (fst (step NotesFailure (step GenerateNotes review_config)))
               = Some msg /\ msg <> "") /\
  session (fst (step NotesFailure (step GenerateNotes review_config)))
  = Some review_session.
Proof.
  assert (H1 : appState (fst review_config) = REVIEW) by (vm_compute; reflexivity).
  assert (H2 : session (fst review_config) = Some review_session)
    by (vm_compute; reflexivity).
  destruct (generateNotes_failure_keeps_session review_config review_session
              review_blob H1 H2 eq_refl eq_refl)
    as (_ & R & M & (sess' & S & -> & _) & _).
  auto.
Defined.

(** C5.  In [IDLE] with nothing held (no stream, no running interval, no
    live track), a start whose microphone request is refused leaves the
    machine in [IDLE] with a non-empty error message and still nothing
    held: the session, the refs, the recorders, the intervals, the live
    tracks and the trace of platform calls are what they were. *)
Theorem startRecording_denied_holds_nothing (c : Config) :
  appState (fst c) = IDLE ->
  stream (fst c) = None ->
  activeTimers (snd c) = ∅ ->
  liveStreams (snd c) = ∅ ->
  let c' := step MediaDenied (step StartRecording c) in
  appState (fst c') = IDLE /\
  (exists msg, error (fst c') = Some msg /\ msg <> "") /\
  stream (fst c') = None /\
  activeTimers (snd c') = ∅ /\
  liveStreams (snd c') = ∅ /\
  session (fst c') = session (fst c) /\
  duration (fst c') = duration (fst c) /\
  mediaRecorderRef (fst c') = mediaRecorderRef (fst c) /\
  timerRef (fst c') = timerRef (fst c) /\
  recorders (snd c') = recorders (snd c) /\
  calls (snd c') = calls (snd c).
Proof.
  destruct c as [s p]. cbn [fst snd]. intros Hst Hs Ht Hl.
  unfold_handlers. cbn.
  destruct (pendingMedia p ++ [duration s]) eqn:Q.
  { apply app_eq_nil in Q as [_ Q]. discriminate. }
  cbn. repeat split; eauto; try discriminate.
Qed.

Lemma startRecording_denied_holds_nothing_witness :
  appState (fst (step MediaDenied (step StartRecording init))) = IDLE /\
  (exists msg, error (fst (step MediaDenied (step StartRecording init)))
               = Some msg /\ msg <> "") /\
  stream (fst (step MediaDenied (step StartRecording init))) = None /\
  activeTimers (snd (step MediaDenied (step StartRecording init))) = ∅ /\
  liveStreams (snd (step MediaDenied (step StartRecording init))) = ∅.
Proof.
  destruct (startRecording_denied_holds_nothing init eq_refl eq_refl eq_refl eq_refl)
    as (H1 & H2 & H3 & H4 & H5 & _).
  auto.
Defined.

(** No step releases an object URL. *)
Lemma step_released (e : Event) (c : Config) :
  released_handles (step e c) = released_handles c.
Proof.
  destruct c as [s p]. unfold released_handles.
  step_cases e s p; reflexivity.
Qed.

(** Only the completion of a stop creates one. *)
Lemma step_created (e : Event) (c : Config) :
  created_handles (step e c) = created_handles c \/
  (exists r data uuid now audioStream d,
     e = RecorderStopped r data uuid now /\
     recorders (snd c) !! r = Some (mkRecorder audioStream d stopping) /\
     created_handles (step e c) = S (created_handles c)).
Proof.
  destruct c as [s p]. unfold created_handles.
  step_cases e s p; try (left; reflexivity);
    right; do 6 eexists; (split; [reflexivity |]); split; eauto.
Qed.

(** C3 (as amended).  Each completion of a stop creates exactly one
    playback handle and stores it in the session it builds; nothing ever
    releases a handle: along every run the number of releases is zero,
    and [reset] (discard, new recording, delete) clears the session
    without a single platform call. *)
Theorem playback_handles_are_never_released :
  (forall es : list Event, released_handles (run es init) = 0%nat) /\
  (forall (c : Config) (r audioStream : nat) (d : Z) (data : list byte)
          (uuid : string) (now : Z),
     recorders (snd c) !! r = Some (mkRecorder audioStream d stopping) ->
     let c' := step (RecorderStopped r data uuid now) c in
     created_handles c' = S (created_handles c) /\
     (audioUrl <$> session (fst c')) = Some (Some (nextId (snd c))) /\
     head (calls (snd c')) = Some (TrackStop audioStream) /\
     In (CreateObjectURL (nextId (snd c))) (calls (snd c'))) /\
  (forall c : Config,
     session (fst (step Reset c)) = None /\
     calls (snd (step Reset c)) = calls (snd c)).
Proof.
  split; [| split].
  - intros es.
    apply (run_invariant (fun c => released_handles c = 0%nat)).
    + intros e c H. now rewrite step_released.
    + reflexivity.
  - intros [s p] r audioStream d data uuid now H. cbn [snd] in H.
    unfold created_handles. unfold_handlers. cbn. rewrite H.
    destruct data; cbn; repeat split; auto.
  - intros [s p]. split; reflexivity.
Qed.

Lemma playback_handles_are_never_released_witness :
  recorders (snd stopping_config) !! 2%nat = Some (mkRecorder 1 0%Z stopping) /\
  created_handles (step (RecorderStopped 2 ["001"%byte] "id" 0%Z) stopping_config)
  = S (created_handles stopping_config).
Proof.
  assert (H : recorders (snd stopping_config) !! 2%nat
              = Some (mkRecorder 1 0%Z stopping)) by (vm_compute; reflexivity).
  split; [exact H |].
  exact (proj1 (proj1 (proj2 playback_handles_are_never_released)
                  stopping_config 2%nat 1%nat 0%Z ["001"%byte] "id" 0%Z H)).
Defined.

(** C3, as stated, fails: after one capture is stopped and then
    discarded, one handle was created and none released. *)
Lemma discard_leaves_handle_unreleased :
  let c := step Reset review_config in
  feasible [StartRecording; MediaGranted; StopRecording;
            RecorderStopped 2 ["001"%byte] "id" 0%Z; Reset] init = true /\
  session (fst c) = None /\
  created_handles c = 1%nat /\
  released_handles c = 0%nat /\
  created_handles c <> released_handles c.
Proof. vm_compute. repeat split; discriminate. Qed.

(** The guard of [stopRecording]. *)
Lemma stopRecording_guard (c : Config) :
  appState (fst c) <> RECORDING -> step StopRecording c = c.
Proof.
  destruct c as [s p]. cbn [fst]. intros H. unfold_handlers. cbn.
  destruct (mediaRecorderRef s); [| reflexivity]. cbn.
  destruct (appState s); try reflexivity. contradiction.
Qed.

(** The guard of [generateNotes]. *)
Lemma generateNotes_guard (c : Config) :
  (forall sess, session (fst c) = Some sess -> audioBlob sess = None) ->
  step GenerateNotes c = c.
Proof.
  destruct c as [s p]. cbn [fst]. intros H. unfold_handlers. cbn.
  destruct (session s) as [x|]; [| reflexivity]. cbn.
  now rewrite (H x eq_refl).
Qed.

Lemma AppState_eqb_eq (a b : AppState) : AppState_eqb a b = true <-> a = b.
Proof. destruct a, b; simpl; split; congruence. Qed.

(** C6 (as amended).  [appState] is always one of the six members of the
    enumeration.  [stopRecording] outside [RECORDING] changes nothing,
    and [generateNotes] changes nothing when there is no session with
    audio; its guard looks at the session, not at the state, and
    [startRecording] and [reset] have no guard.  What keeps an event to
    its source state is the page: the start control is there only in
    [IDLE], the stop control only in [RECORDING], generate and discard
    only in [REVIEW] with a session, reset only in [REVIEW] or
    [COMPLETED] with a session. *)
Theorem events_and_their_source_states :
  (forall es : list Event,
     In (appState (fst (run es init)))
        [IDLE; RECORDING; REVIEW; PROCESSING; COMPLETED; ERROR]) /\
  (forall c : Config, appState (fst c) <> RECORDING -> step StopRecording c = c) /\
  (forall c : Config,
     (forall sess, session (fst c) = Some sess -> audioBlob sess = None) ->
     step GenerateNotes c = c) /\
  (forall s : State,
     (offered StartRecording s = true -> appState s = IDLE) /\
     (offered StopRecording s = true -> appState s = RECORDING) /\
     (offered GenerateNotes s = true -> appState s = REVIEW /\ session s <> None) /\
     (offered Reset s = true ->
        (appState s = REVIEW \/ appState s = COMPLETED) /\ session s <> None)).
Proof.
  split; [| split; [| split]].
  - intros es. destruct (appState (fst (run es init))); simpl; auto 10.
  - exact stopRecording_guard.
  - exact generateNotes_guard.
  - intros s. unfold offered, has_session.
    destruct (appState s), (session s); simpl; repeat split;
      try discriminate; auto.
Qed.

Lemma events_and_their_source_states_witness :
  appState (fst review_config) <> RECORDING /\
  step StopRecording review_config = review_config.
Proof.
  assert (H : appState (fst review_config) <> RECORDING)
    by (vm_compute; discriminate).
  split; [exact H |].
  exact (proj1 (proj2 events_and_their_source_states) review_config H).
Defined.

(** C6, as stated, fails: [generateNotes] arriving in [COMPLETED], not
    its source state, moves the machine to [PROCESSING].  And among the
    events the page and the platform really produce: after a double
    press of the record button, the second grant arrives in [REVIEW] and
    moves the machine to [RECORDING]. *)
Lemma generateNotes_in_COMPLETED_is_not_a_noop :
  (appState (fst completed_config) = COMPLETED /\
   appState (fst (step GenerateNotes completed_config)) = PROCESSING /\
   appState (fst (step GenerateNotes completed_config))
   <> appState (fst completed_config)) /\
  (feasible double_start_events init = true /\
   appState (fst (run (removelast double_start_events) init)) = REVIEW /\
   appState (fst (run double_start_events init)) = RECORDING).
Proof. vm_compute. repeat split; discriminate. Qed.

(** C4 (as amended).  The continuation of [generateNotes] compares no
    identities: an answer that arrives sets [COMPLETED] and attaches the
    notes to whatever session is current then; if there is none, none is
    created and no error is raised.  The only guard is the page, which
    offers neither discard nor generate while [PROCESSING].  That guard
    does not keep a session from being discarded while its request is in
    flight: the page can leave [PROCESSING] with the request pending, and
    in [REVIEW] the Discard button is enabled. *)
Theorem late_answer_without_identity_check :
  (forall s : State, offered Reset s = true -> appState s <> PROCESSING) /\
  (forall s : State, offered GenerateNotes s = true -> appState s <> PROCESSING) /\
  (forall (c : Config) (text : option UTF16.ustring),
     pendingNotes (snd c) <> [] ->
     let c' := step (NotesResponse text) c in
     appState (fst c') = COMPLETED /\
     session (fst c') = attach_notes (Gemini.notes_of_response text) (session (fst c)) /\
     error (fst c') = error (fst c) /\
     (session (fst c) = None -> session (fst c') = None)) /\
  (exists es : list Event,
     feasible es init = true /\
     appState (fst (run es init)) = REVIEW /\
     pendingNotes (snd (run es init)) <> [] /\
     enabled Reset (run es init) = true).
Proof.
  split; [| split; [| split]].
  - intros s. unfold offered. destruct (appState s); simpl; discriminate.
  - intros s. unfold offered. destruct (appState s); simpl; discriminate.
  - intros [s p] text H. cbn [fst snd] in *. unfold_handlers. cbn.
    destruct (pendingNotes p); [contradiction |]. cbn.
    repeat split; auto. intros ->. reflexivity.
  - exists in_flight_events. vm_compute. repeat split; discriminate.
Qed.

Lemma late_answer_without_identity_check_witness :
  pendingNotes (snd discarded_in_flight) <> [] /\
  appState (fst (step (NotesResponse (Some late_notes)) discarded_in_flight)) = COMPLETED.
Proof.
  assert (H : pendingNotes (snd discarded_in_flight) <> [])
    by (vm_compute; discriminate).
  split; [exact H |].
  exact (proj1 (proj1 (proj2 (proj2 late_answer_without_identity_check))
                  discarded_in_flight (Some late_notes) H)).
Defined.

(** C4, as stated, fails, on events the page and the platform really
    produce.  The session is discarded with the Discard button while its
    request is in flight; the late answer is not dropped: it moves the
    machine from [IDLE] to [COMPLETED], where there is no session and no
    control is offered.  And when the second recorder delivers its
    [stop] event in between, the late notes, made from the first
    capture, land in the session of the second. *)
Lemma late_answer_after_reset_is_not_dropped :
  (feasible (discard_in_flight_events ++ [NotesResponse (Some late_notes)]) init
   = true /\
   appState (fst discarded_in_flight) = IDLE /\
   session (fst discarded_in_flight) = None /\
   pendingNotes (snd discarded_in_flight) <> [] /\
   let c := step (NotesResponse (Some late_notes)) discarded_in_flight in
   appState (fst c) = COMPLETED /\
   appState (fst c) <> appState (fst discarded_in_flight) /\
   session (fst c) = None /\
   offered StartRecording (fst c) = false /\
   offered StopRecording (fst c) = false /\
   offered GenerateNotes (fst c) = false /\
   offered Reset (fst c) = false) /\
  (feasible (recapture_in_flight_events ++ [NotesResponse (Some late_notes)]) init
   = true /\
   (id <$> session (fst review_in_flight)) = Some "id" /\
   (id <$> session (fst recaptured_in_flight)) = Some "id2" /\
   let c := step (NotesResponse (Some late_notes)) recaptured_in_flight in
   session (fst c) <> session (fst recaptured_in_flight) /\
   (id <$> session (fst c)) = Some "id2" /\
   (notes <$> session (fst c)) = Some (Some late_notes)).
Proof. vm_compute. repeat split; discriminate. Qed.

Lemma step_webm_session (e : Event) (c : Config) :
  webm_session c -> webm_session (step e c).
Proof.
  destruct c as [s p]. unfold webm_session. cbn [fst]. intros H.
  step_cases e s p; intros sess blob Hs Hb; eauto;
    try discriminate;
    try (injection Hs as <-; cbn in Hb; injection Hb as <-; reflexivity);
    try (eapply H; [congruence | eassumption]).
  all: destruct (session s) as [y|]; [| discriminate].
  all: cbn in Hs; injection Hs as <-; cbn in Hb; eauto.
Qed.

Lemma run_webm_session (es : list Event) : webm_session (run es init).
Proof.
  apply (run_invariant webm_session).
  - intros e c. apply step_webm_session.
  - intros sess blob H. discriminate H.
Qed.

(** C7.  For the audio artifact of any session the machine can hold:
    the data URL read from it is the prefix [data:audio/webm;base64,]
    followed by the base64 text of its bytes; the part sent to the
    service carries exactly that text, prefix stripped, under the type
    [audio/webm]; decoding that text gives back the bytes; and the first
    attempt and a retry after a failure send the same part, the session
    being unchanged in between. *)
Theorem artifact_payload_roundtrip
        (es : list Event) (sess : NoteSession) (blob : Gemini.Blob) :
  session (fst (run es init)) = Some sess ->
  audioBlob sess = Some blob ->
  let payload := Base64.encode (Gemini.blob_bytes blob) in
  Gemini.readAsDataURL blob = "data:audio/webm;base64," +:+ payload /\
  Gemini.blobToBase64 blob = Some payload /\
  Gemini.inlineData blob = Gemini.mkInlineData "audio/webm" (Some payload) /\
  Base64.decode payload = Some (Gemini.blob_bytes blob) /\
  let c1 := step GenerateNotes (run es init) in
  let c2 := step NotesFailure c1 in
  let c3 := step GenerateNotes c2 in
  head (calls (snd c1)) = Some (GenerateContent (Gemini.inlineData blob)) /\
  session (fst c2) = Some sess /\
  head (calls (snd c3)) = Some (GenerateContent (Gemini.inlineData blob)).
Proof.
  intros Hs Hb payload.
  pose proof (run_webm_session es sess blob Hs Hb) as Hty.
  assert (Hcf : Gemini.comma_free (Gemini.blob_type blob)).
  { rewrite Hty. unfold Gemini.comma_free. cbn. repeat constructor; discriminate. }
  pose proof (blobToBase64_encode blob Hcf) as Hp. fold payload in Hp.
  split; [| split; [| split; [| split]]].
  - unfold Gemini.readAsDataURL. rewrite Hty. reflexivity.
  - exact Hp.
  - unfold Gemini.inlineData. rewrite Hp, Hty. reflexivity.
  - apply decode_encode.
  - destruct (run es init) as [s p]. cbn [fst] in Hs.
    unfold_handlers. cbn. rewrite Hs, Hb. cbn.
    destruct (pendingNotes p ++ [blob]) eqn:Q.
    { apply app_eq_nil in Q as [_ Q]. discriminate. }
    cbn. rewrite Hs, Hb. cbn. auto.
Qed.

Lemma artifact_payload_roundtrip_witness :
  Gemini.blobToBase64 review_blob = Some (Base64.encode ["001"%byte]) /\
  Base64.decode (Base64.encode ["001"%byte]) = Some ["001"%byte].
Proof.
  assert (H : session (fst (run [StartRecording; MediaGranted; StopRecording;
                                 RecorderStopped 2 ["001"%byte] "id" 0%Z] init))
              = Some review_session) by (vm_compute; reflexivity).
  destruct (artifact_payload_roundtrip _ review_session review_blob H eq_refl)
    as (_ & H2 & _ & H4 & _).
  split; [exact H2 | exact H4].
Defined.

(** *** Further invariants *)

(** The case analysis of a step, keeping the equation of every test. *)
Ltac step_cases_eq e s p :=
  destruct e as [ | | | ?t | | ?r ?data ?uuid ?now | | ?text | | ];
  unfold_handlers; cbn;
  [ | destruct (pendingMedia p) eqn:? | destruct (pendingMedia p) eqn:?
    | case_bool_decide
    | destruct (mediaRecorderRef s) eqn:?; cbn;
      [ destruct (AppState_eqb (appState s) RECORDING) eqn:?; cbn;
        [ destruct (timerRef s) as [[|?]|] eqn:? | ] | ]
    | match goal with
      | |- context [recorders p !! ?r] =>
          destruct (recorders p !! r) as [[? ? []]|] eqn:?
      end; cbn;
      [ | destruct data | | ]
    | destruct (session s) as [?x|] eqn:?; cbn;
      [ match goal with
        | |- context [audioBlob ?x] => destruct (audioBlob x) eqn:?
        end | ]
    | destruct (pendingNotes p) eqn:? | destruct (pendingNotes p) eqn:? | ];
  cbn.

Lemma map_Forall_alter_2 {A} (P : nat -> A -> Prop) (f : A -> A) (i : nat)
      (m : gmap nat A) :
  (forall x, P i x -> P i (f x)) -> map_Forall P m -> map_Forall P (alter f i m).
Proof.
  intros Hf Hm j y Hj. apply lookup_alter_Some in Hj as [(-> & x & Hx & ->)|[_ Hj]].
  - apply Hf, (Hm _ _ Hx).
  - apply (Hm _ _ Hj).
Qed.

Lemma step_durations_nonneg (e : Event) (c : Config) :
  durations_nonneg c -> durations_nonneg (step e c).
Proof.
  destruct c as [s p]. unfold durations_nonneg. cbn [fst snd].
  intros (Hd & Hs & Hq & Hr).
  assert (Hs' : forall n sess, attach_notes n (session s) = Some sess ->
                               (0 <= Types.duration sess)%Z).
  { intros n sess. destruct (session s) as [x|] eqn:E; [| discriminate].
    intros [= <-]. cbn. now apply Hs. }
  step_cases_eq e s p; repeat split; eauto; try lia;
    try (intros sess [= <-]; cbn; eauto);
    try discriminate;
    try (intros sess Hx; apply Hs; congruence);
    try (apply Forall_app; split; [assumption | now repeat constructor]);
    try (match goal with H : pendingMedia p = _ |- _ => rewrite ?H end;
         first [assumption | inversion Hq; subst; assumption]);
    repeat first
      [ assumption
      | apply map_Forall_alter_2; [intros x Hx; try destruct (rec_state x); exact Hx |]
      | apply map_Forall_insert_2; cbn [rec_duration]
      | inversion Hq; subst; assumption
      | match goal with H : recorders p !! _ = Some _ |- _ => exact (Hr _ _ H) end ].
Qed.

Lemma run_durations_nonneg (es : list Event) : durations_nonneg (run es init).
Proof.
  apply (run_invariant durations_nonneg).
  - exact step_durations_nonneg.
  - split; [cbn; lia |]. split; [discriminate |]. split; [constructor |].
    apply map_Forall_empty.
Qed.

Lemma step_session_complete (e : Event) (c : Config) :
  session_complete c -> session_complete (step e c).
Proof.
  destruct c as [s p]. unfold session_complete. cbn [fst snd]. intros H.
  assert (H' : forall n sess, attach_notes n (session s) = Some sess ->
             (exists blob, audioBlob sess = Some blob /\
                           Gemini.blob_type blob = "audio/webm") /\
             (exists u, audioUrl sess = Some u /\ In (CreateObjectURL u) (calls p)) /\
             topic sess = None).
  { intros n sess. destruct (session s) as [x|] eqn:E; [| discriminate].
    intros [= <-]. cbn. now apply H. }
  step_cases_eq e s p; intros sess Hx;
    try discriminate;
    try (injection Hx as <-; cbn; repeat split; eauto 10; fail);
    try (exact (H' _ _ Hx));
    try (destruct (H sess ltac:(congruence)) as ((bl & ? & ?) & (u & ? & ?) & ?);
         repeat split; eauto 10 using in_cons, in_eq; fail).
Qed.

Lemma run_session_complete (es : list Event) : session_complete (run es init).
Proof.
  apply (run_invariant session_complete).
  - exact step_session_complete.
  - intros sess H. discriminate H.
Qed.

Lemma AppState_eqb_refl (a : AppState) : AppState_eqb a a = true.
Proof. now destruct a. Qed.

Lemma step_recording_armed (e : Event) (c : Config) :
  recording_armed c -> recording_armed (step e c).
Proof.
  destruct c as [s p]. unfold recording_armed. cbn [fst snd]. intros H.
  step_cases_eq e s p; intros Hst; try discriminate;
    try (destruct (H Hst) as (r0 & s0 & d0 & t0 & H1 & H2 & H3 & H4);
         exists r0, s0, d0, t0; repeat split; try assumption; try congruence).
  - do 4 eexists. split; [reflexivity |]. split.
    + rewrite lookup_alter_eq, lookup_insert_eq. reflexivity.
    + split; [reflexivity | set_solver].
  - rewrite lookup_insert_ne; [assumption | intros ->; congruence].
  - rewrite lookup_insert_ne; [assumption | intros ->; congruence].
Qed.

Lemma run_recording_armed (es : list Event) : recording_armed (run es init).
Proof.
  apply (run_invariant recording_armed).
  - exact step_recording_armed.
  - intros H. discriminate H.
Qed.

Lemma step_processing_pending (e : Event) (c : Config) :
  processing_pending c -> processing_pending (step e c).
Proof.
  destruct c as [s p]. unfold processing_pending. cbn [fst snd]. intros H.
  step_cases_eq e s p; intros Hst; try discriminate; try (now apply H);
    try (intros Q; apply app_eq_nil in Q as [_ Q]; discriminate Q);
    try (exfalso; now apply (H Hst)).
Qed.

Lemma run_processing_pending (es : list Event) : processing_pending (run es init).
Proof.
  apply (run_invariant processing_pending).
  - exact step_processing_pending.
  - intros H. discriminate H.
Qed.

Lemma step_error_message (e : Event) (c : Config) :
  error (fst (step e c)) = error (fst c) \/
  error (fst (step e c)) = None \/
  error (fst (step e c)) = Some microphone_message \/
  error (fst (step e c)) = Some notes_message.
Proof.
  destruct c as [s p]. step_cases e s p; auto.
Qed.

(** X1.  Along every run no count of seconds is negative: neither the
    counter nor the duration of the session. *)
Theorem durations_never_negative (es : list Event) :
  (0 <= duration (fst (run es init)))%Z /\
  (forall sess, session (fst (run es init)) = Some sess ->
                (0 <= Types.duration sess)%Z).
Proof.
  destruct (run_durations_nonneg es) as (H1 & H2 & _). now split.
Qed.

(** X2.  Whatever the run, a session the machine holds has its audio, an
    [audio/webm] blob, and an object URL that [createObjectURL] returned
    (so the players' [session.audioUrl!] is never [null]); it has no
    topic; and [generateNotes] passes its guard and starts processing. *)
Theorem sessions_are_complete (es : list Event) (sess : NoteSession) :
  session (fst (run es init)) = Some sess ->
  (exists blob u,
     audioBlob sess = Some blob /\
     Gemini.blob_type blob = "audio/webm" /\
     audioUrl sess = Some u /\
     In (CreateObjectURL u) (calls (snd (run es init)))) /\
  topic sess = None /\
  appState (fst (step GenerateNotes (run es init))) = PROCESSING.
Proof.
  intros H. destruct (run_session_complete es sess H)
    as ((blob & Hb & Ht) & (u & Hu & Hin) & Hto).
  split; [exists blob, u; auto |]. split; [exact Hto |].
  destruct (run es init) as [s p]. cbn [fst] in H.
  unfold_handlers. cbn. rewrite H, Hb. reflexivity.
Qed.

Lemma sessions_are_complete_witness :
  session (fst (run [StartRecording; MediaGranted; StopRecording;
                     RecorderStopped 2 ["001"%byte] "id" 0%Z] init))
  = Some review_session /\
  topic review_session = None.
Proof.
  assert (H : session (fst (run [StartRecording; MediaGranted; StopRecording;
                                 RecorderStopped 2 ["001"%byte] "id" 0%Z] init))
              = Some review_session) by (vm_compute; reflexivity).
  split; [exact H |].
  exact (proj1 (proj2 (sessions_are_complete _ review_session H))).
Defined.

(** X3.  Whenever the machine is recording, whatever led there, the stop
    handler takes effect: the machine goes to [REVIEW], the interval in
    [timerRef] is no longer running (its callback leaves the machine as
    it is), and the recorder in [mediaRecorderRef] has its [stop] event
    queued. *)
Theorem stopRecording_takes_effect (es : list Event) :
  appState (fst (run es init)) = RECORDING ->
  let c' := step StopRecording (run es init) in
  appState (fst c') = REVIEW /\
  exists r t,
    mediaRecorderRef (fst (run es init)) = Some r /\
    timerRef (fst (run es init)) = Some t /\
    (t ∈ activeTimers (snd (run es init))) /\
    (t ∉ activeTimers (snd c')) /\
    step (Tick t) c' = c' /\
    forall data uuid now, ready (RecorderStopped r data uuid now) (snd c') = true.
Proof.
  intros Hst. destruct (run_recording_armed es Hst) as (r & s0 & d & t & Hr & Hl & Ht & Ha).
  destruct (run es init) as [[ast ses strm dur err ref chk tmr] p].
  cbn [fst snd appState mediaRecorderRef timerRef] in *. subst ast ref tmr.
  cbv zeta. unfold_handlers. cbn.
  split; [reflexivity |]. exists r, (S t). repeat split; auto.
  - intros [_ Hn]%elem_of_difference. apply Hn. now apply elem_of_singleton.
  - rewrite bool_decide_eq_false_2; [reflexivity |].
    intros [_ Hn]%elem_of_difference. apply Hn. now apply elem_of_singleton.
  - intros _ _ _. rewrite lookup_alter_eq, Hl. reflexivity.
Qed.

Lemma stopRecording_takes_effect_witness :
  appState (fst (run [StartRecording; MediaGranted] init)) = RECORDING /\
  appState (fst (step StopRecording (run [StartRecording; MediaGranted] init)))
  = REVIEW.
Proof.
  assert (H : appState (fst (run [StartRecording; MediaGranted] init)) = RECORDING)
    by (vm_compute; reflexivity).
  split; [exact H |].
  exact (proj1 (stopRecording_takes_effect [StartRecording; MediaGranted] H)).
Defined.

(** X4.  Handling the [stop] event of a recorder stops the tracks of the
    stream the recorder was built on, the one its closure holds,
    whatever [stream] holds by then, and of no other stream; it clears
    [stream]; and it makes one object URL. *)
Theorem stop_event_releases_stream
        (c : Config) (r audioStream : nat) (d : Z)
        (data : list byte) (uuid : string) (now : Z) :
  recorders (snd c) !! r = Some (mkRecorder audioStream d stopping) ->
  let c1 := step (RecorderStopped r data uuid now) c in
  stream (fst c1) = None /\
  liveStreams (snd c1) = liveStreams (snd c) ∖ {[audioStream]} /\
  (audioStream ∉ liveStreams (snd c1)) /\
  head (calls (snd c1)) = Some (TrackStop audioStream) /\
  created_handles c1 = S (created_handles c).
Proof.
  destruct c as [s p]. cbn [snd]. intros H. cbv zeta.
  assert (E : exists s1 p1,
             step (RecorderStopped r data uuid now) (s, p) = (s1, p1) /\
             stream s1 = None /\
             liveStreams p1 = liveStreams p ∖ {[audioStream]} /\
             calls p1 = TrackStop audioStream :: CreateObjectURL (nextId p) :: calls p).
  { unfold_handlers. cbn. rewrite H.
    destruct data; cbn; do 2 eexists; (split; [reflexivity |]); cbn;
      repeat split. }
  destruct E as (s1 & p1 & -> & H1 & H2 & H3). cbn [fst snd].
  split; [exact H1 |]. split; [exact H2 |]. split; [| split].
  - rewrite H2. intros [_ Hn]%elem_of_difference. apply Hn.
    now apply elem_of_singleton.
  - now rewrite H3.
  - unfold created_handles. cbn [snd]. rewrite H3. reflexivity.
Qed.

Lemma stop_event_releases_stream_witness :
  recorders (snd stopping_config) !! 2%nat = Some (mkRecorder 1 0%Z stopping) /\
  stream (fst (step (RecorderStopped 2 ["001"%byte] "id" 0%Z) stopping_config))
  = None.
Proof.
  assert (H : recorders (snd stopping_config) !! 2%nat
              = Some (mkRecorder 1 0%Z stopping)) by (vm_compute; reflexivity).
  split; [exact H |].
  exact (proj1 (stop_event_releases_stream stopping_config 2%nat 1%nat 0%Z
                  ["001"%byte] "id" 0%Z H)).
Defined.

(** X5.  The audio artifact is what was buffered followed by what the
    recorder delivers with its [stop] event, byte for byte; an empty
    delivery adds nothing.  The session built around it carries the
    drawn id and time and no notes. *)
Theorem artifact_is_the_recorded_data
        (c : Config) (r audioStream : nat) (d : Z)
        (data : list byte) (uuid : string) (now : Z) :
  recorders (snd c) !! r = Some (mkRecorder audioStream d stopping) ->
  exists sess blob,
    session (fst (step (RecorderStopped r data uuid now) c)) = Some sess /\
    audioBlob sess = Some blob /\
    Gemini.blob_bytes blob = concat (chunksRef (fst c)) ++ data /\
    Gemini.blob_type blob = "audio/webm" /\
    id sess = uuid /\ timestamp sess = now /\ notes sess = None.
Proof.
  destruct c as [s p]. cbn [fst snd]. intros H.
  unfold_handlers. cbn. rewrite H.
  destruct data as [|b data]; cbn; do 2 eexists;
    (split; [reflexivity |]); cbn; (split; [reflexivity |]);
    repeat split.
  - unfold Gemini.newBlob. cbn. now rewrite app_nil_r.
  - unfold Gemini.newBlob. cbn. rewrite concat_app. cbn. now rewrite app_nil_r.
Qed.

Lemma artifact_is_the_recorded_data_witness :
  recorders (snd stopping_config) !! 2%nat = Some (mkRecorder 1 0%Z stopping) /\
  exists sess blob,
    session (fst (step (RecorderStopped 2 ["001"%byte] "id" 0%Z) stopping_config))
    = Some sess /\
    audioBlob sess = Some blob /\
    Gemini.blob_bytes blob = concat (chunksRef (fst stopping_config)) ++ ["001"%byte] /\
    Gemini.blob_type blob = "audio/webm" /\
    id sess = "id" /\ timestamp sess = 0%Z /\ notes sess = None.
Proof.
  assert (H : recorders (snd stopping_config) !! 2%nat
              = Some (mkRecorder 1 0%Z stopping)) by (vm_compute; reflexivity).
  split; [exact H |].
  exact (artifact_is_the_recorded_data stopping_config 2%nat 1%nat 0%Z
           ["001"%byte] "id" 0%Z H).
Defined.

(** X6.  Along every run the error the page shows is one of the two
    fixed messages or absent; it is never the empty text, so the banner
    is shown exactly when an error is set. *)
Theorem error_is_one_of_two_messages (es : list Event) :
  (error (fst (run es init)) = None \/
   error (fst (run es init)) = Some microphone_message \/
   error (fst (run es init)) = Some notes_message) /\
  (forall msg, error (fst (run es init)) = Some msg -> msg <> "").
Proof.
  assert (H : error (fst (run es init)) = None \/
              error (fst (run es init)) = Some microphone_message \/
              error (fst (run es init)) = Some notes_message).
  { apply (run_invariant (fun c => error (fst c) = None \/
                                   error (fst c) = Some microphone_message \/
                                   error (fst c) = Some notes_message)).
    - intros e c Hc.
      destruct (step_error_message e c) as [E|[E|[E|E]]]; rewrite E; auto.
    - left. reflexivity. }
  split; [exact H |].
  intros msg Hm. rewrite Hm in H.
  destruct H as [H|[H|H]]; [discriminate | |]; injection H as ->; discriminate.
Qed.

(** X7.  Whenever the machine is processing, whatever led there, a
    request is in flight: its answer leads to [COMPLETED] and its
    failure to [REVIEW]; meanwhile the page offers none of the four
    user controls. *)
Theorem processing_always_ends (es : list Event) :
  appState (fst (run es init)) = PROCESSING ->
  pendingNotes (snd (run es init)) <> [] /\
  ready NotesFailure (snd (run es init)) = true /\
  (forall text, appState (fst (step (NotesResponse text) (run es init))) = COMPLETED) /\
  appState (fst (step NotesFailure (run es init))) = REVIEW /\
  offered StartRecording (fst (run es init)) = false /\
  offered StopRecording (fst (run es init)) = false /\
  offered GenerateNotes (fst (run es init)) = false /\
  offered Reset (fst (run es init)) = false.
Proof.
  intros Hst. pose proof (run_processing_pending es Hst) as Hp.
  destruct (run es init) as [s p]. cbn [fst snd] in *.
  unfold offered. rewrite Hst. unfold_handlers. cbn.
  destruct (pendingNotes p); [contradiction |]. cbn. repeat split; auto.
Qed.

Lemma processing_always_ends_witness :
  appState (fst (run [StartRecording; MediaGranted; StopRecording;
                      RecorderStopped 2 ["001"%byte] "id" 0%Z;
                      GenerateNotes] init)) = PROCESSING /\
  appState (fst (step NotesFailure
                   (run [StartRecording; MediaGranted; StopRecording;
                         RecorderStopped 2 ["001"%byte] "id" 0%Z;
                         GenerateNotes] init))) = REVIEW.
Proof.
  assert (H : appState (fst (run [StartRecording; MediaGranted; StopRecording;
                                  RecorderStopped 2 ["001"%byte] "id" 0%Z;
                                  GenerateNotes] init)) = PROCESSING)
    by (vm_compute; reflexivity).
  split; [exact H |].
  exact (proj1 (proj2 (proj2 (proj2 (processing_always_ends _ H))))).
Defined.

(** X8.  Apart from the [stop] event of a recorder, which builds a new
    session, no event changes what a session holds except its notes: if
    a session is there before and after, its id, time, audio, object
    URL, duration and topic are the same. *)
Theorem session_changes_only_in_notes
        (e : Event) (c : Config) (sess sess' : NoteSession) :
  (forall r data uuid now, e <> RecorderStopped r data uuid now) ->
  session (fst c) = Some sess ->
  session (fst (step e c)) = Some sess' ->
  id sess' = id sess /\ timestamp sess' = timestamp sess /\
  audioBlob sess' = audioBlob sess /\ audioUrl sess' = audioUrl sess /\
  Types.duration sess' = Types.duration sess /\ topic sess' = topic sess.
Proof.
  destruct c as [s p]. cbn [fst]. intros Hne Hs.
  step_cases_eq e s p; intros Hx;
    try discriminate;
    try (assert (sess' = sess) as -> by congruence; repeat split; fail);
    try (exfalso; eapply Hne; reflexivity).
  rewrite Hs in Hx. injection Hx as <-. repeat split.
Qed.

Lemma session_changes_only_in_notes_witness :
  session (fst processing_config) = Some review_session /\
  session (fst (step (NotesResponse (Some (UTF16.lit "n"))) processing_config))
  = Some noted_session /\
  audioBlob noted_session = audioBlob review_session.
Proof.
  assert (H1 : session (fst processing_config) = Some review_session)
    by (vm_compute; reflexivity).
  assert (H2 : session (fst (step (NotesResponse (Some (UTF16.lit "n"))) processing_config))
               = Some noted_session) by (vm_compute; reflexivity).
  assert (Hne : forall r data uuid now,
             NotesResponse (Some (UTF16.lit "n")) <> RecorderStopped r data uuid now)
    by (intros; discriminate).
  split; [exact H1 |]. split; [exact H2 |].
  exact (proj1 (proj2 (proj2 (session_changes_only_in_notes
           (NotesResponse (Some (UTF16.lit "n"))) processing_config
           review_session noted_session Hne H1 H2)))).
Defined.

(** *** The time display *)

Lemma formatTime_parts (seconds : Z) :
  (0 <= seconds)%Z ->
  exists mm ss,
    formatTime seconds = mm +:+ ":" +:+ ss /\
    JS.all_digits mm /\ JS.all_digits ss /\
    (2 <= String.length mm)%nat /\ String.length ss = 2%nat /\
    JS.decimal_value mm = Some (seconds / 60)%Z /\
    JS.decimal_value ss = Some (seconds mod 60)%Z /\
    ((seconds < 6000)%Z -> String.length mm = 2%nat).
Proof.
  intros H. unfold formatTime, JS.padStart. cbv zeta.
  rewrite Z.rem_mod_nonneg by lia.
  assert (Hm : (0 <= seconds / 60)%Z) by (apply Z.div_pos; lia).
  assert (Hs : (0 <= seconds mod 60 < 100)%Z)
    by (pose proof (Z.mod_pos_bound seconds 60); lia).
  destruct (toString_nonneg _ Hm) as (Nm & Dm & Vm).
  destruct (toString_nonneg (seconds mod 60)%Z ltac:(lia)) as (Ns & Ds & Vs).
  pose proof (toString_two_digits _ Hs) as Ls.
  do 2 eexists. split; [reflexivity |].
  split; [now apply fill_digits |]. split; [now apply fill_digits |].
  rewrite !fill_length. split; [lia |]. split; [lia |].
  split; [apply Vm |]. split; [apply Vs |].
  intros Hlt.
  assert (Hm' : (0 <= seconds / 60 < 100)%Z).
  { split; [exact Hm |]. apply Z.div_lt_upper_bound; lia. }
  pose proof (toString_two_digits _ Hm'). lia.
Qed.

(** X9.  For a count of seconds that is not negative and within the
    safe integers, where the arithmetic of the language is that of the
    definition, [formatTime] gives minutes, a colon, seconds: both parts
    are digits only, the seconds are exactly two digits and the minutes
    at least two, and read as numbers they are the count divided by 60
    and the remainder.  Below a hundred minutes the text has five
    characters. *)
Theorem formatTime_reads_back (seconds : Z) :
  (0 <= seconds <= JS.MAX_SAFE_INTEGER)%Z ->
  exists mm ss,
    formatTime seconds = mm +:+ ":" +:+ ss /\
    JS.all_digits mm /\ JS.all_digits ss /\
    (2 <= String.length mm)%nat /\ String.length ss = 2%nat /\
    JS.decimal_value mm = Some (seconds / 60)%Z /\
    JS.decimal_value ss = Some (seconds mod 60)%Z /\
    ((seconds < 6000)%Z -> String.length (formatTime seconds) = 5%nat).
Proof.
  intros [H _].
  destruct (formatTime_parts seconds H) as (mm & ss & E & D1 & D2 & L1 & L2 & V1 & V2 & L).
  exists mm, ss. repeat split; auto.
  intros Hlt. rewrite E, !length_append, L2, (L Hlt). reflexivity.
Qed.

Lemma formatTime_reads_back_witness :
  (0 <= 75 <= JS.MAX_SAFE_INTEGER)%Z /\
  exists mm ss,
    formatTime 75 = mm +:+ ":" +:+ ss /\
    JS.all_digits mm /\ JS.all_digits ss /\
    (2 <= String.length mm)%nat /\ String.length ss = 2%nat /\
    JS.decimal_value mm = Some (75 / 60)%Z /\
    JS.decimal_value ss = Some (75 mod 60)%Z /\
    ((75 < 6000)%Z -> String.length (formatTime 75) = 5%nat).
Proof.
  assert (H : (0 <= 75 <= JS.MAX_SAFE_INTEGER)%Z)
    by (unfold JS.MAX_SAFE_INTEGER; lia).
  split; [exact H |]. exact (formatTime_reads_back 75 H).
Defined.

(** X10.  Two different counts of seconds, neither negative and both
    within the safe integers, are never shown as the same text. *)
Theorem formatTime_injective (a b : Z) :
  (0 <= a <= JS.MAX_SAFE_INTEGER)%Z -> (0 <= b <= JS.MAX_SAFE_INTEGER)%Z ->
  formatTime a = formatTime b -> a = b.
Proof.
  intros [Ha _] [Hb _] E.
  destruct (formatTime_parts a Ha) as (ma & sa & Ea & Da & _ & _ & _ & Va & Wa & _).
  destruct (formatTime_parts b Hb) as (mb & sb & Eb & Db & _ & _ & _ & Vb & Wb & _).
  rewrite Ea, Eb in E.
  destruct (colon_split_unique _ _ _ _ Da Db E) as [-> ->].
  rewrite Va in Vb. rewrite Wa in Wb.
  injection Vb as Q. injection Wb as R.
  rewrite (Z.div_mod a 60), (Z.div_mod b 60) by lia. now rewrite Q, R.
Qed.

Lemma formatTime_injective_witness :
  (0 <= 75 <= JS.MAX_SAFE_INTEGER)%Z /\
  formatTime 75 = formatTime (60 + 15) /\ 75%Z = (60 + 15)%Z.
Proof.
  assert (H : (0 <= 75 <= JS.MAX_SAFE_INTEGER)%Z)
    by (unfold JS.MAX_SAFE_INTEGER; lia).
  assert (H' : (0 <= 60 + 15 <= JS.MAX_SAFE_INTEGER)%Z)
    by (unfold JS.MAX_SAFE_INTEGER; lia).
  assert (E : formatTime 75 = formatTime (60 + 15)) by reflexivity.
  split; [exact H |]. split; [exact E |].
  exact (formatTime_injective 75 (60 + 15) H H' E).
Defined.

(** X11.  Along every run, what the page passes to [formatTime] (the
    counter while recording, the session's duration in review) is not
    negative, so both displays are minutes, colon, two-digit seconds. *)
Theorem time_displays_are_well_formed (es : list Event) :
  (exists mm ss,
     formatTime (duration (fst (run es init))) = mm +:+ ":" +:+ ss /\
     JS.all_digits mm /\ JS.all_digits ss /\ String.length ss = 2%nat) /\
  (forall sess, session (fst (run es init)) = Some sess ->
     exists mm ss,
       formatTime (Types.duration sess) = mm +:+ ":" +:+ ss /\
       JS.all_digits mm /\ JS.all_digits ss /\ String.length ss = 2%nat).
Proof.
  destruct (run_durations_nonneg es) as (H1 & H2 & _).
  split.
  - destruct (formatTime_parts _ H1) as (mm & ss & E & D1 & D2 & _ & L & _).
    exists mm, ss. auto.
  - intros sess Hs.
    destruct (formatTime_parts _ (H2 sess Hs)) as (mm & ss & E & D1 & D2 & _ & L & _).
    exists mm, ss. auto.
Qed.

(** *** The notes that reach the page *)

Lemma notes_of_response_nonempty (text : option UTF16.ustring) :
  Gemini.notes_of_response text <> [].
Proof.
  unfold Gemini.notes_of_response. destruct text as [[|x t]|]; discriminate.
Qed.

(** X17.  When an answer arrives and a session is there, the session
    gets notes that are never the empty text: the answer's text, or the
    fixed fallback sentence when the answer has no text.  So the notes
    view always has blocks to show: the formatter returns a list, not
    [null], and the list is not empty. *)
Theorem attached_notes_always_render
        (c : Config) (text : option UTF16.ustring) (sess : NoteSession) :
  pendingNotes (snd c) <> [] ->
  session (fst c) = Some sess ->
  exists n blocks,
    (notes <$> session (fst (step (NotesResponse text) c))) = Some (Some n) /\
    n <> [] /\
    (forall t, text = Some t -> t <> [] -> n = t) /\
    (text = None \/ text = Some [] ->
     n = UTF16.lit "No notes could be generated.") /\
    Markdown.renderMarkdown n = Some blocks /\ blocks <> [].
Proof.
  destruct c as [s p]. cbn [fst snd]. intros Hp Hs.
  exists (Gemini.notes_of_response text),
         (map Markdown.renderLine
              (UTF16.split UTF16.LF (Gemini.notes_of_response text))).
  split.
  { unfold_handlers. cbn. destruct (pendingNotes p); [contradiction |].
    cbn. rewrite Hs. reflexivity. }
  split; [apply notes_of_response_nonempty |].
  split.
  { intros t -> Ht. destruct t; [contradiction | reflexivity]. }
  split.
  { intros [->| ->]; reflexivity. }
  split.
  { unfold Markdown.renderMarkdown.
    pose proof (notes_of_response_nonempty text) as N.
    destruct (Gemini.notes_of_response text); [contradiction | reflexivity]. }
  pose proof (split_nonempty UTF16.LF (Gemini.notes_of_response text)) as N.
  destruct (UTF16.split UTF16.LF (Gemini.notes_of_response text));
    [contradiction | discriminate].
Qed.

Lemma attached_notes_always_render_witness :
  pendingNotes (snd processing_config) <> [] /\
  session (fst processing_config) = Some review_session /\
  exists n blocks,
    (notes <$> session (fst (step (NotesResponse None) processing_config)))
    = Some (Some n) /\
    n <> [] /\
    (forall t, @None UTF16.ustring = Some t -> t <> [] -> n = t) /\
    (@None UTF16.ustring = None \/ @None UTF16.ustring = Some [] ->
     n = UTF16.lit "No notes could be generated.") /\
    Markdown.renderMarkdown n = Some blocks /\ blocks <> [].
Proof.
  assert (H1 : pendingNotes (snd processing_config) <> [])
    by (vm_compute; discriminate).
  assert (H2 : session (fst processing_config) = Some review_session)
    by (vm_compute; reflexivity).
  split; [exact H1 |]. split; [exact H2 |].
  exact (attached_notes_always_render processing_config None review_session H1 H2).
Defined.
End AppFacts.

(** ** The visualizer and the page *)

Section PageFacts.
Import Types Visualizer Page.
Local Open Scope list_scope.

(** Unfolding of the model's own definitions only; maps and sets stay
    as they are written. *)
Ltac vcbv :=
  cbv beta iota zeta delta
    [exec effect cleanup draw requestAnimationFrame cancelAnimationFrame
     frame_taken      connect disconnect createMediaStreamSource set_fftSize createAnalyser
     resume newAudioContext freshA set_contexts set_nodes set_connections
     set_frames set_animationRef set_analyserRef set_audioContextRef
     set_sourceRef getRef getAudio modRefs modAudio
     mbind mret StateM_bind StateM_ret fst snd negb orb
     canvasRef animationRef analyserRef audioContextRef sourceRef
     contexts nodes connections frames canvas2d next].

Lemma cleanup_spec (r : Refs) (a : Audio) :
  exists frames',
    exec cleanup (r, a) =
    (r, mkAudio (contexts a) (nodes a)
                (match sourceRef r with
                 | Some s => filter (fun e => fst e <> s) (connections a)
                 | None => connections a
                 end)
                frames' (canvas2d a) (next a)).
Proof.
  destruct r as [cv anim an ctx src], a as [cs ns es fs c2 nx].
  destruct anim as [[|f]|], src as [s|]; vcbv; eauto.
Qed.

(** The effect, when it goes through: it keeps the context it has or
    creates one, creates two nodes and connects the source to the
    analyser. *)
Lemma effect_spec (st : nat) (r : Refs) (a : Audio) :
  canvasRef r = true -> canvas2d a = true ->
  exists r' a' src an,
    effect (Some st) true (r, a) = (true, (r', a')) /\
    canvasRef r' = true /\ canvas2d a' = true /\
    sourceRef r' = Some src /\
    connections a' = {[ (src, an) ]} ∪ connections a /\
    (none_closed a -> none_closed a') /\
    match audioContextRef r with
    | Some c => audioContextRef r' = Some c /\ dom (contexts a') = dom (contexts a)
    | None => audioContextRef r' = Some (next a) /\
              contexts a' = <[next a := running]> (contexts a)
    end.
Proof.
  destruct r as [cv anim an ctx src], a as [cs ns es fs c2 nx].
  cbn [canvasRef canvas2d]. intros -> ->. unfold none_closed.
  destruct ctx as [c|].
  - unfold effect. vcbv.
    destruct (cs !! c) as [[]|] eqn:L; vcbv;
      do 4 eexists; (split; [reflexivity |]); repeat split; auto.
    + intros H c' H'. rewrite lookup_alter in H'.
      case_decide; [subst c'; rewrite L in H'; discriminate | exact (H _ H')].
    + apply dom_alter_L.
  - unfold effect. vcbv. rewrite lookup_insert_eq. vcbv.
    do 4 eexists. (split; [reflexivity |]). repeat split; auto.
    + intros H c' H'. rewrite alter_insert_eq, lookup_insert in H'.
      case_decide; [discriminate | exact (H _ H')].
    + apply alter_insert_eq.
Qed.

(** Without a stream the effect does nothing and returns no cleanup. *)
Lemma effect_no_stream (b : bool) (ra : Refs * Audio) :
  effect None b ra = (false, ra).
Proof. destruct ra as [r a]. reflexivity. Qed.

Lemma run_cleanup_spec (m : Mounted) (a : Audio) :
  fst (run_cleanup m a) = refs m /\
  contexts (snd (run_cleanup m a)) = contexts a /\
  canvas2d (snd (run_cleanup m a)) = canvas2d a /\
  connections (snd (run_cleanup m a)) =
  (if has_cleanup m then
     match sourceRef (refs m) with
     | Some s => filter (fun e => fst e <> s) (connections a)
     | None => connections a
     end
   else connections a).
Proof.
  unfold run_cleanup. destruct (has_cleanup m); [| auto].
  destruct (cleanup_spec (refs m) a) as [f ->]. auto.
Qed.

Lemma filter_out_source (src an : nat) :
  filter (fun e : nat * nat => fst e <> src) ({[ (src, an) ]} : gset (nat * nat)) = ∅.
Proof.
  apply set_eq. intros [x y]. rewrite elem_of_filter, elem_of_singleton.
  split; [| intros H; now apply not_elem_of_empty in H].
  intros [H1 H2]. injection H2 as -> _. now contradiction H1.
Qed.

(** After the cleanup of a mounted visualizer nothing is connected. *)
Lemma run_cleanup_disconnects (m : Mounted) (a : Audio) :
  (if has_cleanup m then
     exists src an, sourceRef (refs m) = Some src /\ connections a = {[ (src, an) ]}
   else connections a = ∅) ->
  connections (snd (run_cleanup m a)) = ∅.
Proof.
  intros G. destruct (run_cleanup_spec m a) as (_ & _ & _ & ->).
  destruct (has_cleanup m); [| exact G].
  destruct G as (src & an & -> & ->). apply filter_out_source.
Qed.

Lemma run_effect_inv (app' : App.Config) (props : option nat * bool)
      (r : Refs) (a : Audio) :
  snd props = true -> canvasRef r = true -> canvas2d a = true ->
  connections a = ∅ -> none_closed a ->
  let (v, a') := run_effect props (r, a) in
  graph_inv (mkConfig app' v a') /\ none_closed a'.
Proof.
  destruct props as [stream b]. cbn [snd]. intros -> Hr Ha Hc Hn.
  unfold run_effect. cbn [fst snd]. destruct stream as [st|].
  - destruct (effect_spec st r a Hr Ha)
      as (r' & a' & src & an & -> & Hr' & Ha' & Hs & Hc' & Hn' & _).
    split; [| auto]. split; [exact Ha' |]. cbn. split; [exact Hr' |].
    exists src, an. split; [exact Hs |]. rewrite Hc', Hc. apply (right_id_L ∅ (∪)).
  - rewrite effect_no_stream. split; [| exact Hn]. split; [exact Ha |]. cbn. auto.
Qed.

(** What is connected, and that no context is closed, is kept by every
    render. *)
Lemma commit_inv (c : Config) (app' : App.Config) :
  graph_inv c -> none_closed (audio c) ->
  let (v, a) := commit (fst app') (visualizer c) (audio c) in
  graph_inv (mkConfig app' v a) /\ none_closed a.
Proof.
  destruct c as [ap v a]. unfold graph_inv. cbn [visualizer audio].
  intros [C2 G] NC. unfold commit.
  destruct (AppState_eqb (App.appState (fst app')) RECORDING).
  - destruct v as [m|].
    + destruct G as [Hcv G]. case_bool_decide.
      * split; [| exact NC]. split; [exact C2 |]. cbn. auto.
      * pose proof (run_cleanup_disconnects m a G) as D.
        destruct (run_cleanup_spec m a) as (R1 & R2 & R3 & _).
        destruct (run_cleanup m a) as [r1 a1]. cbn [fst snd] in *. subst r1.
        apply (run_effect_inv app'); auto; try congruence.
        all: intros x; unfold none_closed in NC; rewrite R2; apply NC.
    + apply (run_effect_inv app'); auto.
  - destruct v as [m|].
    + destruct G as [Hcv G].
      pose proof (run_cleanup_disconnects m a G) as D.
      destruct (run_cleanup_spec m a) as (_ & R2 & R3 & _).
      split; [split; [congruence | exact D] |].
      intros x. rewrite R2. apply NC.
    + split; [split; [exact C2 | exact G] | exact NC].
Qed.

Lemma frame_spec (f : nat) (b : bool) (r : Refs) (a : Audio) :
  exists anim' frames' next',
    exec (frame_taken f;; draw b) (r, a) =
    (mkRefs (canvasRef r) anim' (analyserRef r) (audioContextRef r) (sourceRef r),
     mkAudio (contexts a) (nodes a) (connections a) frames' (canvas2d a) next').
Proof.
  destruct r as [cv anim an ctx src], a as [cs ns es fs c2 nx].
  destruct b; vcbv; eauto.
Qed.

Lemma step_inv (e : Event) (c : Config) :
  graph_inv c /\ none_closed (audio c) ->
  graph_inv (step e c) /\ none_closed (audio (step e c)).
Proof.
  intros [G NC]. destruct e as [e|f]; cbn [step].
  - pose proof (commit_inv c (App.step e (app c)) G NC) as H.
    destruct (commit (fst (App.step e (app c))) (visualizer c) (audio c)).
    exact H.
  - destruct (visualizer c) as [m|] eqn:V; [| auto].
    case_bool_decide; [| auto].
    destruct (frame_spec f (snd (deps m)) (refs m) (audio c))
      as (anim' & frames' & next' & ->).
    unfold graph_inv in *. rewrite V in G. cbn. auto.
Qed.

Lemma run_inv (es : list Event) :
  graph_inv (run es init) /\ none_closed (audio (run es init)).
Proof.
  assert (H : forall c, graph_inv c /\ none_closed (audio c) ->
                        graph_inv (run es c) /\ none_closed (audio (run es c))).
  { induction es as [|e es IH]; intros c Hc; [exact Hc |].
    cbn [run fold_left]. apply IH, step_inv, Hc. }
  apply H. split.
  - split; reflexivity.
  - intros c. cbn. rewrite lookup_empty. discriminate.
Qed.

(** X20.  Along every run of the page: whenever analysis is not running
    nothing is connected in the audio graph, and no context is ever
    closed. *)
Lemma analysis_stopped_graph_disconnected (es : list Event) :
  (analysing (run es init) = false ->
   connections (audio (run es init)) = ∅) /\
  none_closed (audio (run es init)).
Proof.
  destruct (run_inv es) as [[_ G] NC]. split; [| exact NC].
  unfold analysing. destruct (visualizer (run es init)) as [m|]; [| auto].
  intros V. rewrite V in G. tauto.
Qed.

(** X21.  A visualizer that stays mounted keeps its context when its
    effect runs again: no context is created. *)
Lemma effect_rerun_keeps_context (st c : nat) (r : Refs) (a : Audio) :
  canvasRef r = true -> canvas2d a = true -> audioContextRef r = Some c ->
  audioContextRef (fst (snd (effect (Some st) true (r, a)))) = Some c /\
  dom (contexts (snd (snd (effect (Some st) true (r, a))))) = dom (contexts a).
Proof.
  intros Hr Ha Hc.
  destruct (effect_spec st r a Hr Ha) as (r' & a' & src & an & -> & _ & _ & _ & _ & _ & H).
  rewrite Hc in H. exact H.
Qed.

(** *** Mounting and animation frames *)

Lemma effect_frames (st : nat) (r : Refs) (a : Audio) :
  canvasRef r = true -> canvas2d a = true ->
  exists r' a' f,
    effect (Some st) true (r, a) = (true, (r', a')) /\
    animationRef r' = Some (S f) /\
    frames a' = {[ S f ]} ∪ frames a /\
    (next a < next a')%nat.
Proof.
  destruct r as [cv anim an ctx src], a as [cs ns es fs c2 nx].
  cbn [canvasRef canvas2d]. intros -> ->.
  destruct ctx as [c|].
  - unfold effect. vcbv.
    destruct (cs !! c) as [[]|] eqn:L; vcbv;
      do 3 eexists; (split; [reflexivity |]); repeat split; lia.
  - unfold effect. vcbv. rewrite lookup_insert_eq. vcbv.
    do 3 eexists. (split; [reflexivity |]). repeat split; lia.
Qed.

Lemma cleanup_frames (r : Refs) (a : Audio) :
  fst (exec cleanup (r, a)) = r /\
  next (snd (exec cleanup (r, a))) = next a /\
  frames (snd (exec cleanup (r, a))) =
  match animationRef r with
  | Some (S f) => frames a ∖ {[ S f ]}
  | _ => frames a
  end.
Proof.
  destruct r as [cv anim an ctx src], a as [cs ns es fs c2 nx].
  destruct anim as [[|f]|], src as [s|]; vcbv; auto.
Qed.

Lemma frame_taken_draw (f : nat) (r : Refs) (a : Audio) :
  exec (frame_taken f;; draw true) (r, a) =
  (mkRefs (canvasRef r) (Some (next a)) (analyserRef r) (audioContextRef r)
          (sourceRef r),
   mkAudio (contexts a) (nodes a) (connections a)
           ({[ next a ]} ∪ frames a ∖ {[ f ]}) (canvas2d a) (S (next a))).
Proof.
  destruct r as [cv anim an ctx src], a as [cs ns es fs c2 nx]. reflexivity.
Qed.

Lemma single_frame_taken (f : nat) : ({[ f ]} : gset nat) ∖ {[ f ]} = ∅.
Proof.
  apply set_eq. intros x. rewrite elem_of_difference, elem_of_singleton.
  split; [intros [H1 H2]; contradiction | intros H; now apply not_elem_of_empty in H].
Qed.

Lemma run_cleanup_frames (m : Mounted) (a : Audio) :
  (if has_cleanup m then
     exists f, animationRef (refs m) = Some (S f) /\ frames a = {[ S f ]}
   else frames a = ∅) ->
  frames (snd (run_cleanup m a)) = ∅ /\ next (snd (run_cleanup m a)) = next a.
Proof.
  unfold run_cleanup. destruct (has_cleanup m); [| auto].
  intros (f & Hf & Ha).
  destruct (cleanup_frames (refs m) a) as (_ & Hn & ->).
  rewrite Hf, Ha. split; [apply single_frame_taken | exact Hn].
Qed.

Lemma run_effect_more (app' : App.Config) (stream : option nat)
      (r : Refs) (a : Audio) :
  canvasRef r = true -> canvas2d a = true ->
  App.appState (fst app') = RECORDING -> App.stream (fst app') = stream ->
  frames a = ∅ -> (1 <= next a)%nat ->
  let (v, a') := run_effect (stream, true) (r, a) in
  mount_inv (mkConfig app' v a') /\ frames_inv (mkConfig app' v a').
Proof.
  intros Hr Ha Hst Hs Hf Hn. unfold run_effect. cbn [fst snd].
  destruct stream as [st|].
  - destruct (effect_frames st r a Hr Ha) as (r' & a' & f & -> & Hf' & Hfr & Hle).
    unfold mount_inv, frames_inv. cbn. rewrite Hs.
    split; [split; [exact Hst | split; [reflexivity |]] | split; [lia |]].
    + split; [discriminate | reflexivity].
    + exists f. split; [exact Hf' |]. rewrite Hfr, Hf. apply (right_id_L ∅ (∪)).
  - rewrite effect_no_stream.
    unfold mount_inv, frames_inv. cbn. rewrite Hs.
    split; [split; [exact Hst | split; [reflexivity |]] | split; [lia | exact Hf]].
    split; [discriminate | intros N; now contradiction N].
Qed.

Lemma AppState_eqb_RECORDING (a : AppState) :
  AppState_eqb a RECORDING = true <-> a = RECORDING.
Proof. destruct a; cbn; split; congruence. Qed.

Lemma step_more_inv (e : Event) (c : Config) :
  graph_inv c -> mount_inv c /\ frames_inv c ->
  mount_inv (step e c) /\ frames_inv (step e c).
Proof.
  intros [C2 G] [M [N F]]. destruct e as [e|f]; cbn [step].
  - set (app' := App.step e (app c)).
    unfold commit.
    destruct (AppState_eqb (App.appState (fst app')) RECORDING) eqn:R.
    + apply AppState_eqb_RECORDING in R.
      unfold mount_inv in M.
      destruct (visualizer c) as [m|] eqn:V.
      * destruct G as [Hcv G]. destruct M as (_ & Md & Mc).
        case_bool_decide as D.
        -- assert (Es : App.stream (fst (app c)) = App.stream (fst app'))
             by congruence.
           unfold mount_inv, frames_inv. cbn.
           split; [split; [exact R | split; [exact D |]] | split; [exact N | exact F]].
           rewrite <- Es. exact Mc.
        -- destruct (run_cleanup_frames m (audio c) F) as [Hf Hn].
           destruct (run_cleanup_spec m (audio c)) as (R1 & _ & R3 & _).
           destruct (run_cleanup m (audio c)) as [r1 a1]. cbn [fst snd] in *. subst r1.
           assert (H : let (v, a') := run_effect (App.stream (fst app'), true)
                                                 (refs m, a1) in
                       mount_inv (mkConfig app' v a') /\
                       frames_inv (mkConfig app' v a'))
             by (apply (run_effect_more app'); auto; congruence).
           destruct (run_effect (App.stream (fst app'), true) (refs m, a1)).
           exact H.
      * assert (H : let (v, a') := run_effect (App.stream (fst app'), true)
                                              (mounted_refs, audio c) in
                    mount_inv (mkConfig app' v a') /\
                    frames_inv (mkConfig app' v a'))
          by (apply (run_effect_more app'); auto).
        destruct (run_effect (App.stream (fst app'), true) (mounted_refs, audio c)).
        exact H.
    + assert (R' : App.appState (fst app') <> RECORDING).
      { intros H. apply AppState_eqb_RECORDING in H. congruence. }
      destruct (visualizer c) as [m|] eqn:V.
      * destruct (run_cleanup_frames m (audio c) F) as [Hf Hn].
        unfold mount_inv, frames_inv. cbn.
        split; [exact R' | split; [lia | exact Hf]].
      * unfold mount_inv, frames_inv. cbn.
        split; [exact R' | split; [exact N | exact F]].
  - assert (Keep : mount_inv c /\ frames_inv c).
    { split; [exact M | split; [exact N | exact F]]. }
    unfold mount_inv in M.
    destruct (visualizer c) as [m|] eqn:V; [| exact Keep].
    case_bool_decide as Hin; [| exact Keep].
    destruct M as (M1 & M2 & M3).
    destruct (has_cleanup m) eqn:Hc.
    + destruct F as (f0 & Hf0 & Hfr).
      rewrite M2. cbn [snd]. rewrite frame_taken_draw.
      unfold mount_inv, frames_inv. cbn.
      split; [split; [exact M1 | split; [reflexivity | exact M3]] | split; [lia |]].
      rewrite Hfr in Hin. apply elem_of_singleton in Hin. subst f.
      destruct (next (audio c)) as [|k] eqn:K; [lia |].
      exists k. split; [reflexivity |].
      rewrite Hfr, single_frame_taken. apply (right_id_L ∅ (∪)).
    + rewrite F in Hin. now apply not_elem_of_empty in Hin.
Qed.

Lemma run_more_inv (es : list Event) :
  mount_inv (run es init) /\ frames_inv (run es init).
Proof.
  assert (H : forall c,
             (graph_inv c /\ none_closed (audio c)) /\ (mount_inv c /\ frames_inv c) ->
             (graph_inv (run es c) /\ none_closed (audio (run es c))) /\
             (mount_inv (run es c) /\ frames_inv (run es c))).
  { induction es as [|e es IH]; intros c Hc; [exact Hc |].
    cbn [run fold_left]. apply IH. destruct Hc as [Hg Hm].
    split; [now apply step_inv | apply step_more_inv; [exact (proj1 Hg) | exact Hm]]. }
  apply H. split; [apply (run_inv []) |].
  split.
  - unfold mount_inv. cbn. discriminate.
  - unfold frames_inv. cbn. split; [lia | reflexivity].
Qed.

(** X18.  Along every run of the page, the visualizer is mounted exactly
    while the application is recording, and it analyses (its effect went
    through and holds a cleanup) exactly while the application is
    recording with a stream. *)
Theorem visualizer_follows_recording (es : list Event) :
  (visualizer (run es init) = None <->
   App.appState (fst (app (run es init))) <> RECORDING) /\
  (analysing (run es init) = true <->
   App.appState (fst (app (run es init))) = RECORDING /\
   App.stream (fst (app (run es init))) <> None).
Proof.
  destruct (run_more_inv es) as [M _]. unfold mount_inv, analysing in *.
  destruct (visualizer (run es init)) as [m|].
  - destruct M as (M1 & _ & M3). split.
    + split; [discriminate | intros H; contradiction].
    + split; [intros H; split; [exact M1 | now apply M3] | intros [_ H]; now apply M3].
  - split.
    + split; auto.
    + split; [discriminate | intros [H _]; contradiction].
Qed.

(** X19.  Along every run of the page, exactly one animation frame is
    requested and not yet run while analysis is running, the one in
    [animationRef]; once analysis has stopped, none is left: nothing
    draws after the teardown. *)
Theorem animation_frames_follow_analysis (es : list Event) :
  (analysing (run es init) = false -> frames (audio (run es init)) = ∅) /\
  (analysing (run es init) = true ->
   exists m f, visualizer (run es init) = Some m /\
               animationRef (refs m) = Some f /\
               frames (audio (run es init)) = {[ f ]}).
Proof.
  destruct (run_more_inv es) as [_ [_ F]]. unfold analysing.
  destruct (visualizer (run es init)) as [m|].
  - destruct (has_cleanup m).
    + split; [discriminate |]. intros _. destruct F as (f & H1 & H2).
      exists m, (S f). auto.
    + split; [intros _; exact F | discriminate].
  - split; [intros _; exact F | discriminate].
Qed.

(** *** One context for every mount *)

Lemma effect_contexts_drawn (st : nat) (r : Refs) (a : Audio) :
  canvasRef r = true -> canvas2d a = true ->
  contexts_drawn a ->
  contexts_drawn (snd (snd (effect (Some st) true (r, a)))).
Proof.
  intros Hr Ha Hd.
  destruct (effect_spec st r a Hr Ha)
    as (r' & a' & src & an & E & _ & _ & _ & _ & _ & Hc).
  destruct (effect_frames st r a Hr Ha) as (r2 & a2 & f & E2 & _ & _ & Hlt).
  rewrite E in E2. injection E2 as <- <-. rewrite E. cbn [snd].
  intros k x Hk. destruct (audioContextRef r) as [c|].
  - destruct Hc as [_ Hdom].
    assert (Hin : k ∈ dom (contexts a)) by (rewrite <- Hdom; apply elem_of_dom; eauto).
    apply elem_of_dom in Hin as [y Hy]. specialize (Hd _ _ Hy).
    exact (Nat.lt_trans _ _ _ Hd Hlt).
  - destruct Hc as [_ Hc]. rewrite Hc in Hk.
    rewrite lookup_insert in Hk. case_decide; [subst k; exact Hlt |].
    specialize (Hd _ _ Hk). exact (Nat.lt_trans _ _ _ Hd Hlt).
Qed.

Lemma run_effect_contexts_drawn (props : option nat * bool) (r : Refs) (a : Audio) :
  snd props = true -> canvasRef r = true -> canvas2d a = true ->
  contexts_drawn a -> contexts_drawn (snd (run_effect props (r, a))).
Proof.
  destruct props as [stream b]. cbn [snd]. intros -> Hr Ha Hd.
  unfold run_effect. cbn [fst snd]. destruct stream as [st|].
  - pose proof (effect_contexts_drawn st r a Hr Ha Hd) as H.
    destruct (effect (Some st) true (r, a)) as [b [r' a']]. exact H.
  - rewrite effect_no_stream. exact Hd.
Qed.

Lemma run_cleanup_contexts_drawn (m : Mounted) (a : Audio) :
  contexts_drawn a -> contexts_drawn (snd (run_cleanup m a)).
Proof.
  intros Hd k x Hk.
  destruct (run_cleanup_spec m a) as (_ & Hc & _ & _).
  assert (Hn : next (snd (run_cleanup m a)) = next a).
  { unfold run_cleanup. destruct (has_cleanup m); [| reflexivity].
    apply (cleanup_frames (refs m) a). }
  rewrite Hc in Hk. rewrite Hn. exact (Hd _ _ Hk).
Qed.

Lemma step_contexts_drawn (e : Event) (c : Config) :
  graph_inv c -> mount_inv c -> contexts_drawn (audio c) ->
  contexts_drawn (audio (step e c)).
Proof.
  intros [C2 G] M Hd. destruct e as [e|f]; cbn [step].
  - set (app' := App.step e (app c)). unfold commit.
    destruct (AppState_eqb (App.appState (fst app')) RECORDING).
    + destruct (visualizer c) as [m|] eqn:V.
      * destruct G as [Hcv G]. case_bool_decide as D; [exact Hd |].
        pose proof (run_cleanup_contexts_drawn m (audio c) Hd) as H1.
        destruct (run_cleanup_spec m (audio c)) as (R1 & _ & R3 & _).
        destruct (run_cleanup m (audio c)) as [r1 a1]. cbn [fst snd] in *. subst r1.
        pose proof (run_effect_contexts_drawn (App.stream (fst app'), true)
                      (refs m) a1 eq_refl Hcv ltac:(congruence) H1) as H2.
        destruct (run_effect (App.stream (fst app'), true) (refs m, a1)). exact H2.
      * pose proof (run_effect_contexts_drawn (App.stream (fst app'), true)
                      mounted_refs (audio c) eq_refl eq_refl C2 Hd) as H2.
        destruct (run_effect (App.stream (fst app'), true) (mounted_refs, audio c)).
        exact H2.
    + destruct (visualizer c) as [m|] eqn:V; [| exact Hd].
      cbn. now apply run_cleanup_contexts_drawn.
  - destruct (visualizer c) as [m|] eqn:V; [| exact Hd].
    case_bool_decide; [| exact Hd].
    unfold mount_inv in M. rewrite V in M. destruct M as (_ & M2 & _).
    rewrite M2. cbn [snd]. rewrite frame_taken_draw. cbn.
    intros k x Hk. specialize (Hd _ _ Hk).
    exact (Nat.lt_trans _ _ _ Hd (Nat.lt_succ_diag_r _)).
Qed.

Lemma run_contexts_drawn (es : list Event) : contexts_drawn (audio (run es init)).
Proof.
  assert (H : forall c,
             ((graph_inv c /\ none_closed (audio c)) /\ (mount_inv c /\ frames_inv c)) /\
             contexts_drawn (audio c) ->
             ((graph_inv (run es c) /\ none_closed (audio (run es c))) /\
              (mount_inv (run es c) /\ frames_inv (run es c))) /\
             contexts_drawn (audio (run es c))).
  { induction es as [|e es IH]; intros c Hc; [exact Hc |].
    cbn [run fold_left]. apply IH. destruct Hc as [[Hg Hm] Hd].
    split; [split; [now apply step_inv
                   | apply step_more_inv; [exact (proj1 Hg) | exact Hm]] |].
    apply step_contexts_drawn; [exact (proj1 Hg) | exact (proj1 Hm) | exact Hd]. }
  apply (H init). split; [split; [apply (run_inv []) | apply (run_more_inv [])] |].
  intros k x Hk. cbn in Hk. rewrite lookup_empty in Hk. discriminate.
Qed.

(** X22.  Along every run of the page: when an event puts a visualizer
    on a page that had none and its analysis starts, exactly one new
    context is created, and the contexts that were there stay as they
    are.  The number of contexts grows with every capture. *)
Theorem every_mount_creates_a_context (es : list Event) (e : App.Event) :
  visualizer (run es init) = None ->
  analysing (step (AppEvent e) (run es init)) = true ->
  contexts_created (step (AppEvent e) (run es init))
  = S (contexts_created (run es init)) /\
  (forall k st, contexts (audio (run es init)) !! k = Some st ->
                contexts (audio (step (AppEvent e) (run es init))) !! k = Some st).
Proof.
  intros V A.
  destruct (run_inv es) as [[C2 _] _].
  pose proof (run_contexts_drawn es) as Hd.
  revert A. unfold analysing, contexts_created. cbn [step]. rewrite V.
  set (c := run es init) in *. set (app' := App.step e (app c)).
  unfold commit.
  destruct (AppState_eqb (App.appState (fst app')) RECORDING); [| discriminate].
  unfold run_effect. cbn [fst snd].
  destruct (App.stream (fst app')) as [st|];
    [| rewrite effect_no_stream; discriminate].
  destruct (effect_spec st mounted_refs (audio c) eq_refl C2)
    as (r' & a' & src & an & -> & _ & _ & _ & _ & _ & Hc).
  cbn in Hc. destruct Hc as [_ Hc]. cbn. intros _.
  assert (Hfresh : contexts (audio c) !! next (audio c) = None).
  { destruct (contexts (audio c) !! next (audio c)) eqn:L; [| reflexivity].
    specialize (Hd _ _ L). lia. }
  rewrite Hc. split.
  - now apply map_size_insert_None.
  - intros k x Hk. rewrite lookup_insert_ne; [exact Hk |].
    intros <-. rewrite Hfresh in Hk. discriminate.
Qed.

Lemma every_mount_creates_a_context_witness :
  visualizer (run second_start_events init) = None /\
  analysing (step (AppEvent App.MediaGranted) (run second_start_events init)) = true /\
  contexts_created (step (AppEvent App.MediaGranted) (run second_start_events init))
  = S (contexts_created (run second_start_events init)).
Proof.
  assert (H1 : visualizer (run second_start_events init) = None)
    by (vm_compute; reflexivity).
  assert (H2 : analysing (step (AppEvent App.MediaGranted)
                            (run second_start_events init)) = true)
    by (vm_compute; reflexivity).
  split; [exact H1 |]. split; [exact H2 |].
  exact (proj1 (every_mount_creates_a_context second_start_events
                  App.MediaGranted H1 H2)).
Defined.

Lemma effect_rerun_keeps_context_witness :
  audioContextRef
    (fst (snd (effect (Some 7) true
                 (mkRefs true None None (Some 1) None,
                  mkAudio {[ 1%nat := running ]} ∅ ∅ ∅ true 2)))) = Some 1%nat.
Proof.
  exact (proj1 (effect_rerun_keeps_context 7 1
                  (mkRefs true None None (Some 1%nat) None)
                  (mkAudio {[ 1%nat := running ]} ∅ ∅ ∅ true 2)
                  eq_refl eq_refl eq_refl)).
Defined.

(** C9 (the code departs from the claim).  Two captures in a row, made
    of events the page and the platform really produce.  When the first
    one stops, the visualizer is unmounted, nothing is left connected
    and its context, handle 1, is still running, not closed.  The second
    capture mounts a new visualizer, whose refs are empty: a second
    context, handle 5, is created and the first one is not used
    again. *)
Theorem second_capture_creates_second_context :
  App.feasible (capture_events ++ discard_events ++ capture_events) App.init = true /\
  app second_capture =
    App.run (capture_events ++ discard_events ++ capture_events) App.init /\
  contexts_created first_capture = 1%nat /\
  (audioContextRef ∘ refs <$> visualizer first_capture) = Some (Some 1%nat) /\
  visualizer between_captures = None /\
  connections (audio between_captures) = ∅ /\
  contexts (audio between_captures) !! 1%nat = Some running /\
  contexts_created between_captures = 1%nat /\
  contexts_created second_capture = 2%nat /\
  (audioContextRef ∘ refs <$> visualizer second_capture) = Some (Some 5%nat) /\
  contexts (audio second_capture) !! 1%nat = Some running.
Proof. vm_compute. repeat split. Qed.

End PageFacts.
